(** * Label scattering of the autocontext workflow

    A shallow embedding of [core/labels.py] (the label scatterer), of
    [autocontext.py] (the training loop that calls it, the forest files and
    the checks of the command line) and of the keys of [core/ilp.py], with
    their properties stated and proved over the embedding.

    Conventions of the embedding.
    - A numpy array is a record of its shape, its dtype and its elements in
      row-major (flat) order.  A voxel coordinate is represented by its flat
      index, so the tuple of coordinate arrays returned by [numpy.where] is
      one list of flat indices, in ascending order as numpy returns them.
    - Python integers are [Z]; list indices and lengths are [nat].
    - Exceptions and the process-wide state of the [random] module are
      threaded by a state-and-exception monad [M].
    - [math.ceil(float(a)/b)] is the exact ceiling of the quotient: the
      operands are list lengths and loop counters, far below 2^53, where the
      correctly rounded double quotient has the same ceiling as the
      rational one. *)

From Stdlib Require Import ZArith Lia Ascii.
From Stdlib Require DecimalString DecimalPos DecimalN.
From stdpp Require Import base tactics numbers list gmap sets sorting strings.

Local Open Scope Z_scope.

(** ** Exceptions and the state monad *)

Inductive exn : Type :=
  | ValueError
  | IndexError
  | ZeroDivisionError
  | TypeError
  | WeightsError.        (* Exception("The number of weights must not be smaller ...") *)

Inductive result (A : Type) : Type :=
  | Ok (a : A)
  | Raise (e : exn).
Arguments Ok {A} a.
Arguments Raise {A} e.

Definition M (S A : Type) : Type := S → result A * S.

Definition ret {S A} (a : A) : M S A := λ s, (Ok a, s).
Definition raise {S A} (e : exn) : M S A := λ s, (Raise e, s).
Definition bind {S A B} (m : M S A) (f : A → M S B) : M S B :=
  λ s, match m s with
       | (Ok a, s') => f a s'
       | (Raise e, s') => (Raise e, s')
       end.

Notation "'let*' x ':=' m 'in' k" := (bind m (λ x, k))
  (at level 10, x pattern, m at level 100, k at level 200).

(** A [for] loop whose body updates loop-carried variables [st]. *)
Fixpoint foldM {S A St} (body : A → St → M S St) (l : list A) (st : St) : M S St :=
  match l with
  | [] => ret st
  | a :: l' => let* st' := body a st in foldM body l' st'
  end.

(** [range(n)] for a Python integer [n]: empty when [n <= 0]. *)
Definition py_range (n : Z) : list Z := Z.of_nat <$> seq 0 (Z.to_nat n).

(** [l[i]] on a Python list. *)
Definition getitem {S A} (l : list A) (i : nat) : M S A :=
  match l !! i with
  | Some a => ret a
  | None => raise IndexError
  end.

(** A list comprehension whose element expression has effects. *)
Fixpoint mapM {S A B} (f : A → M S B) (l : list A) : M S (list B) :=
  match l with
  | [] => ret []
  | a :: l' => let* b := f a in let* bs := mapM f l' in ret (b :: bs)
  end.

(** [l[:n]] *)
Definition py_slice_to {A} (l : list A) (n : Z) : list A :=
  if decide (0 ≤ n) then take (Z.to_nat n) l
  else take (length l - Z.to_nat (- n)) l.

(** ** Arrays *)

Inductive dtype : Type :=
  | uint8 | uint16 | uint32 | uint64 | int8 | int16 | int32 | int64.

Record ndarray : Type := mk_ndarray {
  shape : list nat;
  arr_dtype : dtype;
  data : list Z
}.

Definition size_of (sh : list nat) : nat := foldr Nat.mul 1%nat sh.

Definition ndarray_wf (a : ndarray) : Prop := length (data a) = size_of (shape a).

(** [numpy.zeros(shape, dtype=dtype)] *)
Definition numpy_zeros (sh : list nat) (dt : dtype) : ndarray :=
  mk_ndarray sh dt (replicate (size_of sh) 0).

(** [numpy.where(a == c)], as flat indices. *)
Definition numpy_where (a : ndarray) (c : Z) : list nat :=
  filter (λ p, data a !! p = Some c) (seq 0 (length (data a))).

(** [w[idx]] for an index list [idx]: numpy raises IndexError out of bounds. *)
Fixpoint take_indices {S} (w : list nat) (idx : list nat) : M S (list nat) :=
  match idx with
  | [] => ret []
  | j :: idx' =>
      let* p := getitem w j in
      let* ps := take_indices w idx' in
      ret (p :: ps)
  end.

(** [block[wh] = v] for a list [wh] of positions. *)
Definition setitem {S} (block : ndarray) (wh : list nat) (v : Z) : M S ndarray :=
  if bool_decide (Forall (λ p, (p < length (data block))%nat) wh)
  then ret (mk_ndarray (shape block) (arr_dtype block)
                       (foldl (λ d p, <[p := v]> d) (data block) wh))
  else raise IndexError.

(** [int(math.ceil(float(a)/b))] *)
Definition ceil_div (a b : Z) : Z := - ((- a) / b).

Definition py_ceil_div {S} (a b : Z) : M S Z :=
  if decide (b = 0) then raise ZeroDivisionError else ret (ceil_div a b).

(** ** The scatterer, [core/labels.py] *)

Section Scatter.

(** The state of the [random] module and the choice made by
    [random.sample] on a population and a sample size within bounds. *)
Context {rng : Type}.
Variable sample_choice : list nat → nat → rng → list nat * rng.

(** [random.sample(population, k)] *)
Definition random_sample (population : list nat) (k : Z) : M rng (list nat) :=
  λ g, if bool_decide (0 ≤ k ≤ Z.of_nat (length population))
       then let '(chosen, g') := sample_choice population (Z.to_nat k) g in (Ok chosen, g')
       else (Raise ValueError, g).

(** Body of the loop over the classes, lines 19-29; the loop-carried
    variables are [available_list] and the [block] under construction. *)
Definition scatter_class (wh_list : list (list nat)) (n k : Z) (i : nat)
    (st : list (list nat) * ndarray) : M rng (list (list nat) * ndarray) :=
  let '(available_list, block) := st in
  let* available_indices := getitem available_list i in
  let* num_samples := py_ceil_div (Z.of_nat (length available_indices)) (n - k) in
  let* chosen_indices := random_sample available_indices num_samples in
  let available_list' :=
    <[i := filter (λ x, x ∉ chosen_indices) available_indices]> available_list in
  let* w := getitem wh_list i in
  let* wh := take_indices w chosen_indices in
  let* block' := setitem block wh (Z.of_nat i + 1) in
  ret (available_list', block').

(** Body of the loop over the rounds, lines 16-30. *)
Definition scatter_round (label_block : ndarray) (label_count : nat)
    (wh_list : list (list nat)) (n k : Z)
    (st : list (list nat) * list ndarray) : M rng (list (list nat) * list ndarray) :=
  let '(available_list, scatter_blocks) := st in
  let block := numpy_zeros (shape label_block) (arr_dtype label_block) in
  let* (available_list', block') :=
    foldM (scatter_class wh_list n k) (seq 0 label_count) (available_list, block) in
  ret (available_list', scatter_blocks ++ [block']).

(** [wh_list], line 12: the coordinates of each class [i + 1]. *)
Definition class_coordinates (label_block : ndarray) (label_count : nat)
    : list (list nat) :=
  (λ i, numpy_where label_block (Z.of_nat i + 1)) <$> seq 0 label_count.

(** [available_list], line 13: for each class the indices into its
    coordinates, all available at first. *)
Definition initial_pools (wh_list : list (list nat)) : list (list nat) :=
  (λ wh, seq 0 (length wh)) <$> wh_list.

(** The rounds [ks] of the loop of [scatter_labels_single_block], with the
    pools left at its end next to the blocks built. *)
Definition scatter_rounds (label_block : ndarray) (label_count : nat) (n : Z)
    (ks : list Z) : M rng (list (list nat) * list ndarray) :=
  let wh_list := class_coordinates label_block label_count in
  let available_list := initial_pools wh_list in
  foldM (scatter_round label_block label_count wh_list n) ks (available_list, []).

(** [scatter_labels_single_block], lines 10-31. *)
Definition scatter_labels_single_block (label_block : ndarray) (label_count : nat)
    (n : Z) : M rng (list ndarray) :=
  let* (_, scatter_blocks) := scatter_rounds label_block label_count n (py_range n) in
  ret scatter_blocks.

(** [return_list[i].append(b)], line 46. *)
Definition append_round (return_list : list (list ndarray)) (ib : nat * ndarray)
    : M rng (list (list ndarray)) :=
  let '(i, b) := ib in
  let* r := getitem return_list i in
  ret (<[i := r ++ [b]]> return_list).

(** [scatter_labels], lines 41-47. *)
Definition scatter_labels (label_blocks : list ndarray) (label_count : nat) (n : Z)
    : M rng (list (list ndarray)) :=
  let return_list := (λ _, []) <$> py_range n in
  foldM (λ block return_list,
           let* scatter_blocks := scatter_labels_single_block block label_count n in
           foldM (λ ib rl, append_round rl ib) (imap pair scatter_blocks) return_list)
        label_blocks return_list.

End Scatter.

(** ** The training loop, [autocontext.py] *)

(** Values passed in a call, and a function defined by [def] with a fixed
    number of positional parameters: a call with another number of
    arguments raises TypeError before the body runs. *)
Inductive pyval : Type :=
  | VBlocks (blocks : list ndarray)
  | VInt (z : Z)
  | VInts (l : list Z).

Record pyfunction (S R : Type) : Type := mk_pyfunction {
  argcount : nat;
  fn_body : list pyval → M S R
}.
Arguments mk_pyfunction {S R} argcount fn_body.
Arguments argcount {S R} p.
Arguments fn_body {S R} p args.

Definition py_call {S R} (f : pyfunction S R) (args : list pyval) : M S R :=
  if decide (length args = argcount f) then fn_body f args else raise TypeError.

(** The calls made on the project. *)
Inductive call : Type :=
  | CallExtendData
  | CallGetChannelCount (i : nat)
  | CallGetLabels (i : Z)
  | CallReplaceLabels (k : Z) (blocks : list ndarray)
  | CallRetrain
  | CallSave (i : Z)
  | CallPredictAll
  | CallMergeOutput (k : nat) (keep : Z).

(** The calls of a training round and of the final restoring of labels. *)
Definition is_round_call (c : call) : bool :=
  match c with
  | CallReplaceLabels _ _ | CallRetrain | CallSave _ | CallPredictAll
  | CallMergeOutput _ _ => true
  | CallExtendData | CallGetChannelCount _ | CallGetLabels _ => false
  end.

(** The project object.  Its class is not among the sources: the methods
    and attributes used by [autocontext] are taken as given, as operations
    on a state of the project. *)
Record ilp_interface (project slices : Type) : Type := mk_ilp {
  extend_data_tzyxc : M project unit;
  data_count : project → nat;
  get_channel_count : nat → M project Z;
  label_names_len : project → nat;              (* len(project.label_names) *)
  labelsets_count : project → nat;
  get_labels : Z → M project (list ndarray * slices);
  replace_labels : Z → list ndarray → slices → M project unit;
  retrain : M project unit;
  save : Z → M project unit;
  predict_all_datasets : M project unit;
  merge_output_into_dataset : nat → Z → M project unit
}.
Arguments mk_ilp {project slices}.
Arguments extend_data_tzyxc {project slices} i.
Arguments data_count {project slices} i.
Arguments get_channel_count {project slices} i.
Arguments label_names_len {project slices} i.
Arguments labelsets_count {project slices} i.
Arguments get_labels {project slices} i.
Arguments replace_labels {project slices} i.
Arguments retrain {project slices} i.
Arguments save {project slices} i.
Arguments predict_all_datasets {project slices} i.
Arguments merge_output_into_dataset {project slices} i.

Section Autocontext.

Context {rng project slices : Type}.
Variable sample_choice : list nat → nat → rng → list nat * rng.
Variable ilp : ilp_interface project slices.

(** The random state, the project and the calls made on it so far. *)
Record world : Type := mk_world {
  w_rng : rng;
  w_project : project;
  w_calls : list call
}.

Definition on_rng {A} (m : M rng A) : M world A :=
  λ w, let '(r, g) := m (w_rng w) in (r, mk_world g (w_project w) (w_calls w)).

Definition method {A} (c : call) (op : M project A) : M world A :=
  λ w, let '(r, p) := op (w_project w) in
       (r, mk_world (w_rng w) p (w_calls w ++ [c])).

Definition attr {A} (f : project → A) : M world A :=
  λ w, (Ok (f (w_project w)), w).

(** [def scatter_labels(label_blocks, label_count, n)] as a function object. *)
Definition scatter_labels_def : pyfunction rng (list (list ndarray)) :=
  mk_pyfunction 3 (λ args,
    match args with
    | [VBlocks label_blocks; VInt label_count; VInt n] =>
        scatter_labels sample_choice label_blocks (Z.to_nat label_count) n
    | _ => raise TypeError
    end).

(** Lines 44-66: weights, reshaping, channel counts, reading the labels. *)
Definition autocontext_setup (runs label_data_nr : Z) (weights : option (list Z))
    : M world (list Z * nat * list Z * nat * list (Z * (list ndarray * slices))) :=
  let weights := match weights with
                 | None => replicate (Z.to_nat runs) 1
                 | Some ws => ws
                 end in
  if decide (Z.of_nat (length weights) < runs) then raise WeightsError else
  let weights := py_slice_to weights runs in
  let* _ := method CallExtendData (extend_data_tzyxc ilp) in
  let* data_count := attr (data_count ilp) in
  let* keep_channels :=
    mapM (λ i, method (CallGetChannelCount i) (get_channel_count ilp i))
         (seq 0 data_count) in
  let* label_count := attr (label_names_len ilp) in
  let* blocks_with_slicing :=
    if decide (label_data_nr = -1) then
      let* c := attr (labelsets_count ilp) in
      mapM (λ i, let* l := method (CallGetLabels i) (get_labels ilp i) in ret (i, l))
           (py_range (Z.of_nat c))
    else
      let* l := method (CallGetLabels label_data_nr) (get_labels ilp label_data_nr) in
      ret [(label_data_nr, l)] in
  ret (weights, data_count, keep_channels, label_count, blocks_with_slicing).

(** Lines 67-68: the scattering of the labels of each dataset. *)
Definition autocontext_scatter (runs : Z) (weights : list Z) (label_count : nat)
    (blocks_with_slicing : list (Z * (list ndarray * slices)))
    : M world (list (list (list ndarray))) :=
  mapM (λ '(i, (blocks, block_slices)),
          on_rng (py_call scatter_labels_def
                    [VBlocks blocks; VInt (Z.of_nat label_count); VInt runs;
                     VInts weights]))
       blocks_with_slicing.

(** Lines 71-96: one training round. *)
Definition autocontext_round (data_count : nat) (keep_channels : list Z)
    (blocks_with_slicing : list (Z * (list ndarray * slices)))
    (scattered_labels_list : list (list (list ndarray))) (i : Z) (_ : unit)
    : M world unit :=
  let* _ :=
    foldM (λ '((k, (blocks, block_slices)), scattered_labels) _,
             let* split_blocks := getitem scattered_labels (Z.to_nat i) in
             method (CallReplaceLabels k split_blocks)
                    (replace_labels ilp k split_blocks block_slices))
          (zip blocks_with_slicing scattered_labels_list) tt in
  let* _ := method CallRetrain (retrain ilp) in
  let* _ := method (CallSave i) (save ilp i) in
  let* _ := method CallPredictAll (predict_all_datasets ilp) in
  foldM (λ k _,
           let* keep := getitem keep_channels k in
           method (CallMergeOutput k keep) (merge_output_into_dataset ilp k keep))
        (seq 0 data_count) tt.

(** [autocontext], lines 27-100; the messages printed are left out. *)
Definition autocontext (runs label_data_nr : Z) (weights : option (list Z))
    : M world unit :=
  let* (weights, data_count, keep_channels, label_count, blocks_with_slicing) :=
    autocontext_setup runs label_data_nr weights in
  let* scattered_labels_list :=
    autocontext_scatter runs weights label_count blocks_with_slicing in
  let* _ :=
    foldM (autocontext_round data_count keep_channels blocks_with_slicing
             scattered_labels_list)
          (py_range runs) tt in
  foldM (λ '(k, (blocks, block_slices)) _,
           method (CallReplaceLabels k blocks)
                  (replace_labels ilp k blocks block_slices))
        blocks_with_slicing tt.

(** [random.seed(a)], line 314 of [main]: an integer seed fixes the state;
    for [None] the state comes from the operating system. *)
Variable seed_state : Z → rng.

Definition random_seed (a : option Z) (os_entropy : rng) : M rng unit :=
  λ _, (Ok (), match a with Some s => seed_state s | None => os_entropy end).

(** The calls of training rounds recorded so far. *)
Definition round_calls (w : world) : list call :=
  filter (λ c, is_round_call c) (w_calls w).

(** A computation that makes no call of a training round. *)
Definition quiet {A} (m : M world A) : Prop :=
  ∀ w, round_calls (m w).2 = round_calls w.

End Autocontext.

(** ** The forest files, [autocontext.py] lines 84-85 and 103-119 *)

(** A Python byte string. *)
Definition pystr : Type := list ascii.

Definition lit (s : string) : pystr := String.list_ascii_of_string s.

(** The exceptions of [autocontext_forests] and [process_command_line];
    an [Exception] is told by the [raise] statement it comes from, its
    message is not modelled. *)
Inductive raise_site : Type :=
  | NotExecutable          (* line 265 *)
  | NoMode                 (* line 269 *)
  | BothModes              (* line 271 *)
  | UnknownArguments       (* line 276 *)
  | TrainWithFiles         (* line 278 *)
  | TrainNotAFile          (* line 280 *)
  | BatchWithoutFiles      (* line 292 *)
  | BatchNotADirectory.    (* line 294 *)

Inductive py_exception : Type :=
  | ExcValueError
  | ExcAssertionError
  | ExcAttributeError
  | ExcException (site : raise_site).

Inductive outcome (A : Type) : Type :=
  | Returns (a : A)
  | Raises (e : py_exception).
Arguments Returns {A} a.
Arguments Raises {A} e.

Definition outcome_bind {A B} (m : outcome A) (f : A → outcome B) : outcome B :=
  match m with
  | Returns a => f a
  | Raises e => Raises e
  end.

Notation "'try*' x ':=' m 'in' k" := (outcome_bind m (λ x, k))
  (at level 10, x pattern, m at level 100, k at level 200).

(** A [for] loop that may raise, with loop-carried variables [st]. *)
Fixpoint for_each {A St} (body : A → St → outcome St) (l : list A) (st : St)
    : outcome St :=
  match l with
  | [] => Returns st
  | a :: l' => try* st' := body a st in for_each body l' st'
  end.

(** [str(z)] for an integer [z]. *)
Definition py_str_int (z : Z) : pystr :=
  lit (DecimalString.NilZero.string_of_int (Z.to_int z)).

Definition sign_char (c : ascii) : bool :=
  Ascii.eqb c "+" || Ascii.eqb c "-".

(** [s.zfill(width)]: zeros on the left, after a leading sign. *)
Definition zfill (width : Z) (s : pystr) : pystr :=
  let fill := replicate (Z.to_nat (width - Z.of_nat (length s))) "0"%char in
  match s with
  | c :: rest => if sign_char c then c :: fill ++ rest else fill ++ s
  | [] => fill
  end.

(** The bound [i] of a slice of a sequence of length [len], as an index
    between 0 and [len]. *)
Definition slice_index (len : nat) (i : Z) : nat :=
  if decide (i < 0) then Z.to_nat (i + Z.of_nat len)
  else Nat.min (Z.to_nat i) len.

(** [l[lo:hi]], a bound left out being [None]. *)
Definition py_slice {A} (l : list A) (lo hi : option Z) : list A :=
  let a := from_option (slice_index (length l)) 0%nat lo in
  let b := from_option (slice_index (length l)) (length l) hi in
  drop a (take b l).

(** [os.path.join(a, b)] of [posixpath]. *)
Definition path_join (a b : pystr) : pystr :=
  match b with
  | "/"%char :: _ => b
  | _ => if bool_decide (a = [] ∨ last a = Some "/"%char) then a ++ b
         else a ++ "/"%char :: b
  end.

(** The order of byte strings. *)
Fixpoint str_le (s t : pystr) : bool :=
  match s, t with
  | [], _ => true
  | _ :: _, [] => false
  | a :: s', b :: t' =>
      (N_of_ascii a <? N_of_ascii b)%N || (Ascii.eqb a b && str_le s' t')
  end.

(** The order of the pairs [(index, name)]. *)
Definition entry_le (x y : Z * pystr) : Prop :=
  x.1 < y.1 ∨ (x.1 = y.1 ∧ str_le x.2 y.2).

Global Instance entry_le_dec x y : Decision (entry_le x y).
Proof. unfold entry_le. apply _. Defined.

(** [sorted] on a list of such pairs.  The order is total and antisymmetric,
    so the sorted list is the same for every sorting algorithm. *)
Definition sorted_entries (l : list (Z * pystr)) : list (Z * pystr) :=
  merge_sort entry_le l.

(** The name under which the forest of run [i] of [runs] is saved, lines
    84-85. *)
Definition forest_name (runs i : Z) : pystr :=
  lit "rf_" ++ zfill (Z.of_nat (length (py_str_int (runs - 1)))) (py_str_int i)
  ++ lit ".ilp".

Definition forest_filename (cache_folder : pystr) (runs i : Z) : pystr :=
  path_join cache_folder (forest_name runs i).

Section Forests.

(** [int(s)] is modelled on the strings of decimal digits and on the empty
    string; its result on other strings is taken as given. *)
Variable int_other : pystr → outcome Z.

Definition py_int (s : pystr) : outcome Z :=
  match s with
  | [] => Raises ExcValueError
  | _ =>
      match DecimalString.NilEmpty.uint_of_string (String.string_of_list_ascii s) with
      | Some d => Returns (Z.of_N (N.of_uint d))
      | None => int_other s
      end
  end.

(** The files of the folder: what [os.listdir(dirname)] returned, and
    [os.path.isfile] on a path. *)
Variable listdir : list pystr.
Variable isfile : pystr → bool.

(** The names that [autocontext_forests] reads as forests, lines 112-114. *)
Definition forest_candidate (dirname filename : pystr) : bool :=
  isfile (path_join dirname filename) && bool_decide (8 ≤ length filename)%nat
  && bool_decide (py_slice filename None (Some 3) = lit "rf_")
  && bool_decide (py_slice filename (Some (-4)) None = lit ".ilp").

(** The pair [(index, fullname)] that a name gives, when it is read as a
    forest and [int] returns on its middle part. *)
Definition forest_entry (dirname filename : pystr) : option (Z * pystr) :=
  if forest_candidate dirname filename then
    match py_int (py_slice filename (Some 3) (Some (-4))) with
    | Returns index => Some (index, path_join dirname filename)
    | Raises _ => None
    end
  else None.

(** Body of the loop over the names, lines 111-115. *)
Definition forest_step (dirname filename : pystr) (rf_files : list (Z * pystr))
    : outcome (list (Z * pystr)) :=
  let fullname := path_join dirname filename in
  if isfile fullname && bool_decide (8 ≤ length filename)%nat then
    let base := py_slice filename None (Some 3) in
    let middle := py_slice filename (Some 3) (Some (-4)) in
    let end_ := py_slice filename (Some (-4)) None in
    if bool_decide (base = lit "rf_") && bool_decide (end_ = lit ".ilp") then
      try* index := py_int middle in
      Returns (rf_files ++ [(index, fullname)])
    else Returns rf_files
  else Returns rf_files.

(** [autocontext_forests], lines 103-119; the [assert] is executed, and an
    empty [zip] cannot be unpacked into the two names. *)
Definition autocontext_forests (dirname : pystr) : outcome (list pystr) :=
  try* rf_files := for_each (forest_step dirname) listdir [] in
  let rf_files := sorted_entries rf_files in
  match rf_files with
  | [] => Raises ExcValueError
  | _ =>
      let rf_indices := rf_files.*1 in
      let rf_files := rf_files.*2 in
      if bool_decide (rf_indices = py_range (Z.of_nat (length rf_files)))
      then Returns rf_files
      else Raises ExcAssertionError
  end.

End Forests.

(** ** The keys of a project file, [core/ilp.py] lines 9-28 *)

(** [ILP.filepath], [ILP.axisorder], [ILP.axistags] and [ILP.labelpath], for
    integer lane and block numbers. *)
Definition ilp_filepath (lane_number : Z) : pystr :=
  let lane_number := zfill 4 (py_str_int lane_number) in
  lit "Input Data/infos/lane" ++ lane_number ++ lit "/Raw Data/filePath".

Definition ilp_axisorder (lane_number : Z) : pystr :=
  let lane_number := zfill 4 (py_str_int lane_number) in
  lit "Input Data/infos/lane" ++ lane_number ++ lit "/Raw Data/axisorder".

Definition ilp_axistags (lane_number : Z) : pystr :=
  let lane_number := zfill 4 (py_str_int lane_number) in
  lit "Input Data/infos/lane" ++ lane_number ++ lit "/Raw Data/axistags".

Definition ilp_labelpath (lane_number block_number : Z) : pystr :=
  let lane_number := zfill 3 (py_str_int lane_number) in
  let block_number := zfill 4 (py_str_int block_number) in
  lit "PixelClassification/LabelSets/labels" ++ lane_number ++ lit "/block"
  ++ block_number.

(** ** The command line, [autocontext.py] lines 224-303 *)

(** The arguments as [argparse] returns them. *)
Record namespace : Type := mk_namespace {
  ns_ilastik : pystr;
  ns_train : option pystr;
  ns_outfile : pystr;
  ns_nloops : Z;
  ns_labeldataset : Z;
  ns_cache : pystr;
  ns_seed : option Z;
  ns_predict_file : bool;
  ns_compression : option pystr;
  ns_batch_predict : option pystr;
  ns_files : option (list pystr)
}.

(** [args.outfile = outfile] and [args.compression = compression] *)
Definition set_outfile (args : namespace) (outfile : pystr) : namespace :=
  mk_namespace (ns_ilastik args) (ns_train args) outfile (ns_nloops args)
    (ns_labeldataset args) (ns_cache args) (ns_seed args) (ns_predict_file args)
    (ns_compression args) (ns_batch_predict args) (ns_files args).

Definition set_compression (args : namespace) (compression : option pystr)
    : namespace :=
  mk_namespace (ns_ilastik args) (ns_train args) (ns_outfile args) (ns_nloops args)
    (ns_labeldataset args) (ns_cache args) (ns_seed args) (ns_predict_file args)
    compression (ns_batch_predict args) (ns_files args).

(** [s.rfind(c)]: the last index of the character [c] in [s], or -1. *)
Fixpoint rfind_from (c : ascii) (s : pystr) (i found : Z) : Z :=
  match s with
  | [] => found
  | a :: s' => rfind_from c s' (i + 1) (if Ascii.eqb a c then i else found)
  end.

Definition rfind (c : ascii) (s : pystr) : Z := rfind_from c s 0 (-1).

(** [os.path.splitext(p)] of [posixpath]: split at the last dot of the last
    component, unless only dots come before it there. *)
Definition splitext (p : pystr) : pystr * pystr :=
  let sepIndex := rfind "/" p in
  let dotIndex := rfind "." p in
  if decide (sepIndex < dotIndex) then
    if existsb (λ c, negb (Ascii.eqb c "."))
               (py_slice p (Some (sepIndex + 1)) (Some dotIndex))
    then (py_slice p None (Some dotIndex), py_slice p (Some dotIndex) None)
    else (p, [])
  else (p, [])
.

(** The truth value of an optional string: [None] and [""] are false. *)
Definition truthy (o : option pystr) : bool :=
  match o with
  | Some (_ :: _) => true
  | _ => false
  end.

Section CommandLine.

(** The file system: [os.path.isfile], [os.access(_, os.X_OK)] and
    [os.path.isdir]. *)
Variable isfile : pystr → bool.
Variable access_x : pystr → bool.
Variable isdir : pystr → bool.

(** The second parser, lines 297-301, which takes the options --headless,
    --project and --output_internal_path out of the unknown arguments. *)
Variable strip_ilastik_options : list pystr → outcome (list pystr).

(** The checks of the training arguments, lines 274-287. *)
Definition check_train (args : namespace) (ilastik_args : list pystr)
    : outcome namespace :=
  match ns_train args with
  | Some train =>
      if bool_decide (0 < length ilastik_args)%nat
      then Raises (ExcException UnknownArguments) else
      if bool_decide (ns_files args ≠ None)
      then Raises (ExcException TrainWithFiles) else
      if negb (isfile train) then Raises (ExcException TrainNotAFile) else
      let args :=
        if bool_decide (length (ns_outfile args) = 0%nat) then
          let '(file_path, file_ext) := splitext train in
          set_outfile args (file_path ++ lit "_out" ++ file_ext)
        else args in
      (* the message of the exception reads [args.d], which does not exist *)
      if bool_decide (ns_labeldataset args < -1) then Raises ExcAttributeError else
      let args :=
        if bool_decide (ns_compression args = Some (lit "None"))
        then set_compression args None else args in
      Returns args
  | None => Returns args
  end.

(** The checks of the batch prediction arguments, lines 290-301. *)
Definition check_batch_predict (args : namespace) (ilastik_args : list pystr)
    : outcome (list pystr) :=
  match ns_batch_predict args with
  | Some batch_predict =>
      if bool_decide (ns_files args = None)
      then Raises (ExcException BatchWithoutFiles) else
      if negb (isdir batch_predict)
      then Raises (ExcException BatchNotADirectory) else
      strip_ilastik_options ilastik_args
  | None => Returns ilastik_args
  end.

(** [process_command_line], after [parser.parse_known_args()] has returned
    [args] and [ilastik_args], lines 263-303. *)
Definition process_command_line (args : namespace) (ilastik_args : list pystr)
    : outcome (namespace * list pystr) :=
  if negb (isfile (ns_ilastik args)) || negb (access_x (ns_ilastik args))
  then Raises (ExcException NotExecutable) else
  if bool_decide (ns_train args = None ∧ ns_batch_predict args = None)
  then Raises (ExcException NoMode) else
  if bool_decide (ns_train args ≠ None ∧ ns_batch_predict args ≠ None)
  then Raises (ExcException BothModes) else
  try* args :=
    if truthy (ns_train args) then check_train args ilastik_args
    else Returns args in
  try* ilastik_args :=
    if truthy (ns_batch_predict args) then check_batch_predict args ilastik_args
    else Returns ilastik_args in
  Returns (args, ilastik_args).

End CommandLine.

(** ** Vocabulary of the properties *)

(** The set of positions of the voxels of class [c]. *)
Definition class_positions (a : ndarray) (c : Z) : gset nat :=
  list_to_set (numpy_where a c).

(** What a round block holds at a voxel whose input value is [v]. *)
Definition label_or_zero (label_count : nat) (v : Z) : Z :=
  if decide (1 ≤ v ≤ Z.of_nat label_count) then v else 0.

(** The number of voxels of class [c] in each block of a list. *)
Definition labels_per_round (c : Z) (outs : list ndarray) : list nat :=
  (λ o, length (numpy_where o c)) <$> outs.

Section Invariants.

Variable label_block : ndarray.
Variable label_count : nat.
Variable n : Z.

(** [p] is the [x]-th coordinate of class [i + 1]. *)
Definition coord (i x p : nat) : Prop :=
  (i < label_count)%nat ∧ numpy_where label_block (Z.of_nat i + 1) !! x = Some p.

(** Index [x] of class [i + 1] is still available. *)
Definition pooled (av : list (list nat)) (i x : nat) : Prop :=
  ∃ a, av !! i = Some a ∧ x ∈ a.

(** An array shaped and typed like the input block. *)
Definition frame (o : ndarray) : Prop :=
  shape o = shape label_block ∧ arr_dtype o = arr_dtype label_block ∧
  length (data o) = length (data label_block).

(** One draw of round [k] from the pool [a0], leaving [a1]. *)
Definition drawn (k : Z) (a0 a1 : list nat) : Prop :=
  ∃ chosen, chosen ⊆+ a0 ∧
    Z.of_nat (length chosen) = ceil_div (Z.of_nat (length a0)) (n - k) ∧
    a1 = filter (λ x, x ∉ chosen) a0.

Definition pools_ok (av : list (list nat)) : Prop :=
  length av = label_count ∧
  ∀ i a, av !! i = Some a →
    NoDup a ∧ ∀ x, x ∈ a → (x < length (numpy_where label_block (Z.of_nat i + 1)))%nat.

(** Invariant of the loop over the classes in round [k], after the classes
    below [i]; [av0] are the pools at the start of the round. *)
Record class_inv (k : Z) (av0 : list (list nat)) (i : nat)
    (st : list (list nat) * ndarray) : Prop := {
  ci_len : length st.1 = label_count;
  ci_frame : frame st.2;
  ci_rest : ∀ i', (i ≤ i')%nat → st.1 !! i' = av0 !! i';
  ci_drawn : ∀ i' a0, (i' < i)%nat → av0 !! i' = Some a0 →
    ∃ a1, st.1 !! i' = Some a1 ∧ drawn k a0 a1;
  ci_vals : ∀ p v, data st.2 !! p = Some v →
    v = 0 ∨ ∃ i' x, (i' < i)%nat ∧ coord i' x p ∧ pooled av0 i' x ∧
                    ¬ pooled st.1 i' x ∧ v = Z.of_nat i' + 1;
  ci_set : ∀ i' x p, (i' < i)%nat → coord i' x p → pooled av0 i' x →
    ¬ pooled st.1 i' x → data st.2 !! p = Some (Z.of_nat i' + 1)
}.

(** Invariant of the loop over the rounds, after [j] rounds. *)
Record round_inv (j : nat) (st : list (list nat) * list ndarray) : Prop := {
  ri_pools : pools_ok st.1;
  ri_len : length st.2 = j;
  ri_frame : ∀ o, o ∈ st.2 → frame o;
  ri_pooled : ∀ k o p i x, st.2 !! k = Some o → coord i x p → pooled st.1 i x →
    data o !! p = Some 0;
  ri_vals : ∀ k o p v, st.2 !! k = Some o → data o !! p = Some v →
    v = 0 ∨ ∃ i x, coord i x p ∧ v = Z.of_nat i + 1 ∧ ¬ pooled st.1 i x ∧
      ∀ k' o', k' ≠ k → st.2 !! k' = Some o' → data o' !! p = Some 0;
  ri_assigned : ∀ i x p, coord i x p → ¬ pooled st.1 i x →
    ∃ k o, st.2 !! k = Some o ∧ data o !! p = Some (Z.of_nat i + 1);
  ri_empty : (0 < j)%nat → Z.of_nat j = n → ∀ i a, st.1 !! i = Some a → a = []
}.

End Invariants.

(** ** A concrete sampler: a linear congruential generator *)

Definition lcg_next (g : N) : N := ((g * 1103515245 + 12345) mod 2147483648)%N.

Fixpoint lcg_choice (l : list nat) (k : nat) (g : N) : list nat * N :=
  match k with
  | O => ([], g)
  | S k' =>
      let j := N.to_nat (g mod N.of_nat (length l))%N in
      match l !! j with
      | Some x => let '(r, g') := lcg_choice (delete j l) k' (lcg_next g) in (x :: r, g')
      | None => ([], g)
      end
  end.

(** ** Concrete inputs *)

(** The block of the example scenario: class 1 at indices 0-3, class 2 at
    indices 4 and 5. *)
Definition example_block : ndarray :=
  mk_ndarray [10%nat] uint8 [1; 1; 1; 1; 2; 2; 0; 0; 0; 0].

(** A block with a value above the class count 2. *)
Definition stray_block : ndarray :=
  mk_ndarray [2%nat; 2%nat] uint8 [1; 5; 0; 2].

(** Six voxels of class 1. *)
Definition six_labels : ndarray :=
  mk_ndarray [6%nat] uint8 [1; 1; 1; 1; 1; 1].

(** A project of one dataset with two classes and [labelsets] label sets of
    one block each; its state counts the trainings done. *)
Definition example_ilp (labelsets : nat) (block : ndarray) : ilp_interface nat unit :=
  mk_ilp
    (ret ())
    (λ _, 1%nat)
    (λ _, ret 3)
    (λ _, 2%nat)
    (λ _, labelsets)
    (λ _, ret ([block], ()))
    (λ _ _ _, ret ())
    (λ trained, (Ok (), S trained))
    (λ _, ret ())
    (ret ())
    (λ _ _, ret ()).

Definition example_world : @world N nat := mk_world 7%N 0%nat [].

(** ** Vocabulary of the properties of the shares *)

(** The labels that round [k] of [n] receives of a class of [p] voxels. *)
Definition share (p n k : Z) : Z :=
  p / n + (if decide (k < p mod n) then 1 else 0).

(** The labels of a class of [p] voxels still in its pool before round [j]. *)
Definition remaining (p n j : Z) : Z := p - (j * (p / n) + Z.min j (p mod n)).

(** The sum over the blocks of their values at voxel [p]. *)
Definition voxel_sum (outs : list ndarray) (p : nat) : Z :=
  foldr (λ o acc, default 0 (data o !! p) + acc) 0 outs.

(** The sizes of the pools and of the classes in the blocks after [j]
    rounds. *)
Record count_inv (label_block : ndarray) (label_count : nat) (n : Z) (j : nat)
    (st : list (list nat) * list ndarray) : Prop := {
  cn_pools : ∀ i a, st.1 !! i = Some a →
    Z.of_nat (length a) =
    remaining (Z.of_nat (length (numpy_where label_block (Z.of_nat i + 1)))) n
      (Z.of_nat j);
  cn_blocks : ∀ k o i, st.2 !! k = Some o → (i < label_count)%nat →
    Z.of_nat (length (numpy_where o (Z.of_nat i + 1))) =
    share (Z.of_nat (length (numpy_where label_block (Z.of_nat i + 1)))) n
      (Z.of_nat k)
}.

(** ** Vocabulary of the properties of the training loop *)

(** The methods of the project that a run without labels calls return. *)
Definition ilp_returns {project slices} (ilp : ilp_interface project slices) : Prop :=
  (∀ p, ∃ p', extend_data_tzyxc ilp p = (Ok (), p')) ∧
  (∀ i p, ∃ c p', get_channel_count ilp i p = (Ok c, p')) ∧
  (∀ p, ∃ p', retrain ilp p = (Ok (), p')) ∧
  (∀ i p, ∃ p', save ilp i p = (Ok (), p')) ∧
  (∀ p, ∃ p', predict_all_datasets ilp p = (Ok (), p')) ∧
  (∀ k keep p, ∃ p', merge_output_into_dataset ilp k keep p = (Ok (), p')).

(** The calls of training round [i] on a project without labels, [keep]
    being the channel counts of the datasets. *)
Definition round_trace (keep : list Z) (i : Z) : list call :=
  [CallRetrain; CallSave i; CallPredictAll] ++ imap CallMergeOutput keep.

(** A folder with two forests and another file, and an [int] that raises
    ValueError outside the digits. *)
Definition example_folder : list pystr :=
  [lit "rf_1.ilp"; lit "notes.txt"; lit "rf_0.ilp"].

Definition int_raises (s : pystr) : outcome Z := Raises ExcValueError.

(** Arguments of a training and of a batch prediction, on a file system
    where every path is an executable file and a directory. *)
Definition train_args (labeldataset : Z) : namespace :=
  mk_namespace (lit "run_ilastik.sh") (Some (lit "data/proj.ilp")) [] 3
    labeldataset (lit "cache") None false (Some (lit "None")) None None.

Definition batch_args : namespace :=
  mk_namespace (lit "run_ilastik.sh") None [] 3 (-1) (lit "cache") None false
    (Some (lit "lzf")) (Some (lit "cache")) (Some [lit "raw.h5/data"]).

Definition everything (path : pystr) : bool := true.

Definition keep_arguments (ilastik_args : list pystr) : outcome (list pystr) :=
  Returns ilastik_args.

Definition empty_train_args : namespace :=
  mk_namespace (lit "run_ilastik.sh") (Some []) [] 3 (-7) (lit "cache") None false
    (Some (lit "None")) None (Some [lit "raw.h5/data"]).

(** * Proofs *)

(** ** Generic facts: the monad, loops, array primitives *)

Lemma bind_ok {S A B} (m : M S A) (f : A → M S B) s a s' :
  m s = (Ok a, s') → bind m f s = f a s'.
Proof. intros H. unfold bind. by rewrite H. Qed.

Lemma bind_raise {S A B} (m : M S A) (f : A → M S B) s e s' :
  m s = (Raise e, s') → bind m f s = (Raise e, s').
Proof. intros H. unfold bind. by rewrite H. Qed.

(** Loop rule: an invariant over the loop-carried variables and the monad's
    state, indexed by the number of iterations done. *)
Lemma foldM_inv_st {S A St} (body : A → St → M S St) (l : list A)
    (I : nat → St → S → Prop) :
  (∀ j a st s, l !! j = Some a → I j st s →
     ∃ st' s', body a st s = (Ok st', s') ∧ I (Datatypes.S j) st' s') →
  ∀ st s, I 0%nat st s →
    ∃ st' s', foldM body l st s = (Ok st', s') ∧ I (length l) st' s'.
Proof.
  revert I. induction l as [|a l IH]; intros I Hstep st s H0.
  - exists st, s. split; [done|]. done.
  - destruct (Hstep 0%nat a st s eq_refl H0) as (st1 & s1 & Hb & H1).
    destruct (IH (λ j, I (Datatypes.S j))) with (st := st1) (s := s1)
      as (st2 & s2 & Hf & H2).
    + intros j a' st' s' Hl HI. apply (Hstep (Datatypes.S j) a' st' s' Hl HI).
    + done.
    + exists st2, s2. split; [|done].
      simpl. by rewrite (bind_ok _ _ _ _ _ Hb).
Qed.

Lemma foldM_inv {S A St} (body : A → St → M S St) (l : list A) (I : nat → St → Prop) :
  (∀ j a st s, l !! j = Some a → I j st →
     ∃ st' s', body a st s = (Ok st', s') ∧ I (Datatypes.S j) st') →
  ∀ st s, I 0%nat st →
    ∃ st' s', foldM body l st s = (Ok st', s') ∧ I (length l) st'.
Proof.
  intros Hstep st s H0.
  apply (foldM_inv_st body l (λ j st _, I j st)); [|done].
  intros j a st1 s1 Hl HI. by apply Hstep.
Qed.

Lemma foldM_app {S A St} (body : A → St → M S St) (l1 l2 : list A) st s :
  foldM body (l1 ++ l2) st s =
  bind (foldM body l1 st) (λ st', foldM body l2 st') s.
Proof.
  revert st s. induction l1 as [|a l1 IH]; intros st s; simpl.
  - done.
  - unfold bind in *. destruct (body a st s) as [[st1|e] s1]; [|done].
    apply IH.
Qed.

Lemma py_range_length n : length (py_range n) = Z.to_nat n.
Proof. unfold py_range. by rewrite length_fmap, length_seq. Qed.

Lemma py_range_lookup n j k :
  py_range n !! j = Some k ↔ (j < Z.to_nat n)%nat ∧ k = Z.of_nat j.
Proof.
  unfold py_range. rewrite list_lookup_fmap, fmap_Some. split.
  - intros (x & Hx & ->). apply lookup_seq in Hx as [-> ?]. done.
  - intros [? ->]. exists j. split; [|done]. by apply lookup_seq.
Qed.

Lemma py_range_succ (j : nat) :
  py_range (Z.of_nat (Datatypes.S j)) = py_range (Z.of_nat j) ++ [Z.of_nat j].
Proof.
  unfold py_range. rewrite !Nat2Z.id, seq_S, fmap_app. done.
Qed.

Lemma ceil_div_1 a : ceil_div a 1 = a.
Proof. unfold ceil_div. rewrite Z.div_1_r. lia. Qed.

Lemma ceil_div_bounds a b : 0 ≤ a → 1 ≤ b → 0 ≤ ceil_div a b ≤ a.
Proof.
  intros Ha Hb. unfold ceil_div.
  assert (- a ≤ (- a) / b) by (apply Z.div_le_lower_bound; nia).
  assert ((- a) / b ≤ 0) by (apply Z.div_le_upper_bound; nia).
  lia.
Qed.

Lemma numpy_where_elem a c p : p ∈ numpy_where a c ↔ data a !! p = Some c.
Proof.
  unfold numpy_where. rewrite list_elem_of_filter, elem_of_seq. split.
  - by intros [? _].
  - intros H. split; [done|]. apply lookup_lt_Some in H. lia.
Qed.

Lemma numpy_where_NoDup a c : NoDup (numpy_where a c).
Proof. unfold numpy_where. apply NoDup_filter, NoDup_seq. Qed.

Lemma take_indices_ok {S} (w idx : list nat) (s : S) :
  Forall (λ x, (x < length w)%nat) idx →
  ∃ ps, take_indices w idx s = (Ok ps, s) ∧ Forall2 (λ x p, w !! x = Some p) idx ps.
Proof.
  induction 1 as [|x idx Hx _ (ps & Hps & HF)].
  - exists []. split; [done|]. constructor.
  - destruct (lookup_lt_is_Some_2 w x Hx) as [p Hp].
    exists (p :: ps). split; [|by constructor].
    simpl. unfold getitem. rewrite Hp.
    unfold bind, ret. by rewrite Hps.
Qed.

Lemma foldl_insert_lookup (v : Z) (wh : list nat) (d : list Z) (p : nat) :
  Forall (λ q, (q < length d)%nat) wh →
  foldl (λ d q, <[q := v]> d) d wh !! p = if decide (p ∈ wh) then Some v else d !! p.
Proof.
  revert d. induction wh as [|q wh IH]; intros d Hall; cbn [foldl].
  - case_decide as Hin; [|done]. by apply elem_of_nil in Hin.
  - apply Forall_cons in Hall as [Hq Hall].
    rewrite IH by (rewrite length_insert; done).
    destruct (decide (p ∈ wh)) as [Hin|Hnin].
    + case_decide as Hc; [done|]. exfalso. apply Hc. by right.
    + destruct (decide (p = q)) as [->|Hne].
      * case_decide as Hc; [|exfalso; apply Hc; left].
        by apply list_lookup_insert_eq.
      * case_decide as Hc.
        { apply elem_of_cons in Hc as [?|?]; done. }
        by apply list_lookup_insert_ne.
Qed.

Lemma foldl_insert_length (v : Z) (wh : list nat) (d : list Z) :
  length (foldl (λ d q, <[q := v]> d) d wh) = length d.
Proof.
  revert d. induction wh as [|q wh IH]; intros d; simpl; [done|].
  by rewrite IH, length_insert.
Qed.

Lemma filter_none {A} (P : A → Prop) `{!∀ x, Decision (P x)} (l : list A) :
  (∀ x, x ∈ l → ¬ P x) → filter P l = [].
Proof.
  induction l as [|a l IH]; intros Hl; [done|].
  rewrite filter_cons_False by (apply Hl; left).
  apply IH. intros x Hx. apply Hl. by right.
Qed.

Lemma filter_all {A} (P : A → Prop) `{!∀ x, Decision (P x)} (l : list A) :
  (∀ x, x ∈ l → P x) → filter P l = l.
Proof.
  induction l as [|a l IH]; intros Hl; [done|].
  rewrite filter_cons_True by (apply Hl; left).
  f_equal. apply IH. intros x Hx. apply Hl. by right.
Qed.

Lemma getitem_ok {S A} (l : list A) i a (s : S) :
  l !! i = Some a → getitem l i s = (Ok a, s).
Proof. intros H. unfold getitem. by rewrite H. Qed.

Lemma py_ceil_div_ok {S} a b (s : S) :
  b ≠ 0 → py_ceil_div a b s = (Ok (ceil_div a b), s).
Proof. intros H. unfold py_ceil_div. by rewrite decide_False. Qed.

Lemma setitem_ok {S} block wh v (s : S) :
  Forall (λ p, (p < length (data block))%nat) wh →
  setitem block wh v s =
  (Ok (mk_ndarray (shape block) (arr_dtype block)
         (foldl (λ d p, <[p := v]> d) (data block) wh)), s).
Proof. intros H. unfold setitem. by rewrite bool_decide_eq_true_2. Qed.

Lemma lookup_snoc_Some {A} (l : list A) (a b : A) k :
  (l ++ [a]) !! k = Some b ↔ l !! k = Some b ∨ (k = length l ∧ b = a).
Proof.
  rewrite lookup_app_Some, list_lookup_singleton_Some. split.
  - intros [?|(? & ? & ?)]; [by left|right]. split; [lia|done].
  - intros [?|[-> ->]]; [by left|right]. split; [lia|]. split; [lia|done].
Qed.

(** ** Invariants of the scatter loops *)

Section ScatterProofs.

Context {rng : Type}.
Variable sample_choice : list nat → nat → rng → list nat * rng.

(** What [random.sample] promises: [k] items taken at distinct positions of
    the population, in some order. *)
Hypothesis sample_choice_spec : ∀ l k g, (k ≤ length l)%nat →
  length (sample_choice l k g).1 = k ∧ (sample_choice l k g).1 ⊆+ l.

Variable label_block : ndarray.
Variable label_count : nat.
Variable n : Z.
Hypothesis label_block_wf : ndarray_wf label_block.

Lemma wh_list_lookup i w :
  (class_coordinates label_block label_count) !! i = Some w ↔
  (i < label_count)%nat ∧ w = numpy_where label_block (Z.of_nat i + 1).
Proof.
  unfold class_coordinates. rewrite list_lookup_fmap, fmap_Some. split.
  - intros (x & Hx & ->). apply lookup_seq in Hx as [-> ?]. done.
  - intros [? ->]. exists i. split; [|done]. by apply lookup_seq.
Qed.

Lemma coord_data i x p :
  coord label_block label_count i x p →
  data label_block !! p = Some (Z.of_nat i + 1).
Proof. intros [_ H]. apply numpy_where_elem. by eapply list_elem_of_lookup_2. Qed.

Lemma coord_inj i x p i' x' :
  coord label_block label_count i x p → coord label_block label_count i' x' p →
  i = i' ∧ x = x'.
Proof.
  intros H H'. pose proof (coord_data _ _ _ H) as Hd.
  pose proof (coord_data _ _ _ H') as Hd'.
  assert (i = i') as <- by (rewrite Hd in Hd'; injection Hd'; lia).
  split; [done|]. destruct H as [_ H], H' as [_ H'].
  eapply NoDup_lookup; [apply numpy_where_NoDup| |]; done.
Qed.

Lemma coord_exists i p :
  (i < label_count)%nat → data label_block !! p = Some (Z.of_nat i + 1) →
  ∃ x, coord label_block label_count i x p.
Proof.
  intros Hi Hd. apply numpy_where_elem, list_elem_of_lookup_1 in Hd as [x Hx].
  by exists x.
Qed.

Lemma coord_lt i x p :
  coord label_block label_count i x p → (p < length (data label_block))%nat.
Proof. intros H. apply coord_data in H. by eapply lookup_lt_Some. Qed.

Lemma Forall2_lookup_elem (w chosen ps : list nat) p :
  Forall2 (λ x q, w !! x = Some q) chosen ps →
  p ∈ ps ↔ ∃ x, x ∈ chosen ∧ w !! x = Some p.
Proof.
  induction 1 as [|x q chosen ps Hx _ IH].
  - split; [by intros ?%elem_of_nil|]. by intros (x & ?%elem_of_nil & _).
  - rewrite elem_of_cons, IH. split.
    + intros [->|(y & ? & ?)]; [exists x|exists y]; rewrite elem_of_cons; auto.
    + intros (y & [->|?]%elem_of_cons & Hy).
      * left. congruence.
      * right. eauto.
Qed.

Lemma drawn_subseteq k a0 a1 x : drawn n k a0 a1 → x ∈ a1 → x ∈ a0.
Proof. intros (ch & _ & _ & ->). by intros [_ ?]%list_elem_of_filter. Qed.

Lemma drawn_NoDup k a0 a1 : drawn n k a0 a1 → NoDup a0 → NoDup a1.
Proof. intros (ch & _ & _ & ->) ?. by apply NoDup_filter. Qed.

Lemma filter_not_elem_length (ch a0 : list nat) :
  ch ⊆+ a0 → NoDup a0 →
  (length (filter (λ x, x ∉ ch) a0) + length ch = length a0)%nat.
Proof.
  intros Hsub Hnd. apply submseteq_Permutation in Hsub as [rest Hperm].
  rewrite Hperm in Hnd |- *. rewrite filter_app, !length_app.
  apply NoDup_app in Hnd as (_ & Hdisj & _).
  rewrite (filter_none _ ch) by (intros x Hx Hn; done).
  rewrite (filter_all _ rest); [simpl; lia|].
  intros x Hx Hin. by eapply Hdisj.
Qed.

Lemma drawn_length k a0 a1 :
  drawn n k a0 a1 → NoDup a0 →
  Z.of_nat (length a1) =
  Z.of_nat (length a0) - ceil_div (Z.of_nat (length a0)) (n - k).
Proof.
  intros (ch & Hsub & Hlen & ->) Hnd.
  pose proof (filter_not_elem_length ch a0 Hsub Hnd). lia.
Qed.

Lemma drawn_last k a0 a1 : n - k = 1 → drawn n k a0 a1 → a1 = [].
Proof.
  intros Hk (ch & Hsub & Hlen & ->). rewrite Hk, ceil_div_1 in Hlen.
  assert (ch ≡ₚ a0) as Hp.
  { apply submseteq_length_Permutation; [done|lia]. }
  apply filter_none. intros x Hx Hn. apply Hn. by rewrite Hp.
Qed.

Lemma random_sample_ok population k g :
  0 ≤ k ≤ Z.of_nat (length population) →
  ∃ chosen g', random_sample sample_choice population k g = (Ok chosen, g') ∧
    Z.of_nat (length chosen) = k ∧ chosen ⊆+ population.
Proof.
  intros Hk. unfold random_sample. rewrite bool_decide_eq_true_2 by done.
  destruct (sample_choice_spec population (Z.to_nat k) g) as [Hl Hs]; [lia|].
  destruct (sample_choice population (Z.to_nat k) g) as [chosen g'].
  exists chosen, g'. simpl in *. split; [done|]. split; [lia|done].
Qed.

Lemma pooled_insert_ne av i a i' x :
  i ≠ i' → pooled (<[i := a]> av) i' x ↔ pooled av i' x.
Proof. intros Hne. unfold pooled. by rewrite list_lookup_insert_ne. Qed.

Lemma scatter_class_step k av0 i st g :
  0 ≤ k < n → (i < label_count)%nat → pools_ok label_block label_count av0 →
  class_inv label_block label_count n k av0 i st →
  ∃ st' g',
    scatter_class sample_choice (class_coordinates label_block label_count)
      n k i st g = (Ok st', g') ∧
            class_inv label_block label_count n k av0 (S i) st'.
Proof.
  intros Hk Hi [Hlen0 Hok0] [Hlen Hfr Hrest Hdr Hvals Hset].
  destruct st as [av blk]. simpl in *.
  destruct (lookup_lt_is_Some_2 av0 i) as [a0 Ha0]; [lia|].
  assert (av !! i = Some a0) as Hav by (rewrite Hrest; done).
  destruct (Hok0 i a0 Ha0) as [Hnd0 Hlt0].
  pose proof (ceil_div_bounds (Z.of_nat (length a0)) (n - k)) as Hcd.
  destruct (random_sample_ok a0 (ceil_div (Z.of_nat (length a0)) (n - k)) g)
    as (chosen & g' & Hsample & Hchlen & Hchsub); [lia|].
  set (w := numpy_where label_block (Z.of_nat i + 1)).
  assert (class_coordinates label_block label_count !! i = Some w) as Hw
    by (by apply wh_list_lookup).
  assert (∀ x, x ∈ chosen → x ∈ a0) as Hch_in.
  { intros x Hx. by eapply elem_of_submseteq. }
  destruct (take_indices_ok w chosen g') as (ps & Hps & HF2).
  { apply Forall_forall. intros x Hx. apply Hlt0, Hch_in, Hx. }
  pose proof (Forall2_lookup_elem w chosen ps) as Hps_elem.
  assert (∀ p, p ∈ ps → ∃ x, x ∈ chosen ∧ coord label_block label_count i x p)
    as Hps_coord.
  { intros p Hp. apply Hps_elem in Hp as (x & Hx & Hwx); [|done].
    exists x. split; [done|]. by split. }
  destruct Hfr as (Hsh & Hdt & Hdl).
  assert (Forall (λ p, (p < length (data blk))%nat) ps) as Hbound.
  { apply Forall_forall. intros p Hp. destruct (Hps_coord p Hp) as (x & _ & Hc).
    rewrite Hdl. by eapply coord_lt. }
  set (a1 := filter (λ x, x ∉ chosen) a0).
  set (blk' := mk_ndarray (shape blk) (arr_dtype blk)
                 (foldl (λ d p, <[p := Z.of_nat i + 1]> d) (data blk) ps)).
  exists (<[i := a1]> av, blk'), g'. split.
  { unfold scatter_class.
    rewrite (bind_ok _ _ _ _ _ (getitem_ok av i a0 g Hav)).
    rewrite (bind_ok _ _ _ _ _ (py_ceil_div_ok _ (n - k) g ltac:(lia))).
    rewrite (bind_ok _ _ _ _ _ Hsample).
    rewrite (bind_ok _ _ _ _ _ (getitem_ok _ i w g' Hw)).
    rewrite (bind_ok _ _ _ _ _ Hps).
    rewrite (bind_ok _ _ _ _ _ (setitem_ok blk ps _ g' Hbound)).
    done. }
  assert (∀ x, pooled (<[i := a1]> av) i x ↔ x ∈ a0 ∧ x ∉ chosen) as Hpool_i.
  { intros x. unfold pooled. rewrite list_lookup_insert_eq by lia. split.
    - intros (a & [= <-] & Hx). apply list_elem_of_filter in Hx. tauto.
    - intros [? ?]. exists a1. split; [done|]. apply list_elem_of_filter. tauto. }
  assert (∀ p, data blk' !! p =
               if decide (p ∈ ps) then Some (Z.of_nat i + 1) else data blk !! p) as Hblk'.
  { intros p. by apply foldl_insert_lookup. }
  split; simpl.
  - by rewrite length_insert.
  - split; [done|]. split; [done|]. unfold blk'; simpl.
    by rewrite foldl_insert_length.
  - intros i' Hi'. rewrite list_lookup_insert_ne by lia. apply Hrest. lia.
  - intros i' b0 Hi' Hb0. destruct (decide (i' = i)) as [->|Hne].
    + exists a1. rewrite list_lookup_insert_eq by lia. split; [done|].
      assert (b0 = a0) as -> by congruence.
      exists chosen. split; [done|]. split; [lia|done].
    + rewrite list_lookup_insert_ne by done. apply Hdr; [lia|done].
  - intros p v. rewrite Hblk'. case_decide as Hp.
    + intros [= <-]. right. destruct (Hps_coord p Hp) as (x & Hx & Hc).
      exists i, x. split; [lia|]. split; [done|]. split.
      { exists a0. split; [done|]. by apply Hch_in. }
      split; [|done]. rewrite Hpool_i. tauto.
    + intros Hv. destruct (Hvals p v Hv) as [?|(i' & x & Hi' & Hc & Hp0 & Hnp & ->)];
        [by left|right].
      exists i', x. split; [lia|]. split; [done|]. split; [done|]. split; [|done].
      rewrite pooled_insert_ne by lia. done.
  - intros i' x p Hi' Hc Hp0 Hnp. rewrite Hblk'.
    destruct (decide (i' = i)) as [->|Hne].
    + rewrite decide_True; [done|]. apply Hps_elem; [done|].
      exists x. split; [|apply Hc].
      destruct Hp0 as (a & Ha & Hx). assert (a = a0) as -> by congruence.
      destruct (decide (x ∈ chosen)) as [|Hnin]; [done|].
      exfalso. apply Hnp, Hpool_i. done.
    + rewrite decide_False.
      * apply (Hset i' x p); [lia|done|done|].
        by rewrite pooled_insert_ne in Hnp by lia.
      * intros Hp. destruct (Hps_coord p Hp) as (x' & _ & Hc').
        destruct (coord_inj _ _ _ _ _ Hc Hc'). done.
Qed.

Lemma scatter_round_ok (j : nat) av0 outs g :
  Z.of_nat j < n → pools_ok label_block label_count av0 →
  ∃ av1 blk g',
    scatter_round sample_choice label_block label_count
      (class_coordinates label_block label_count) n (Z.of_nat j)
      (av0, outs) g = (Ok (av1, outs ++ [blk]), g') ∧
    class_inv label_block label_count n (Z.of_nat j) av0 label_count (av1, blk).
Proof.
  intros Hj Hok.
  destruct (foldM_inv
              (scatter_class sample_choice
                 (class_coordinates label_block label_count) n (Z.of_nat j))
              (seq 0 label_count) (class_inv label_block label_count n (Z.of_nat j) av0))
    with (st := (av0, numpy_zeros (shape label_block) (arr_dtype label_block)))
         (s := g) as ([av1 blk] & g' & Hrun & Hinv).
  - intros i a st s Ha Hst. apply lookup_seq in Ha as [-> Hi]. simpl.
    apply scatter_class_step; [lia|done|done|done].
  - split; simpl.
    + apply Hok.
    + split; [done|]. split; [done|]. unfold numpy_zeros; simpl.
      rewrite length_replicate. symmetry. apply label_block_wf.
    + done.
    + intros; lia.
    + intros p v Hv. apply lookup_replicate in Hv as [-> _]. by left.
    + intros; lia.
  - rewrite length_seq in Hinv. exists av1, blk, g'. split; [|done].
    unfold scatter_round. by rewrite (bind_ok _ _ _ _ _ Hrun).
Qed.

Lemma round_inv_init :
  round_inv label_block label_count n 0
    (initial_pools (class_coordinates label_block label_count), []).
Proof.
  assert (∀ i a, initial_pools (class_coordinates label_block label_count) !! i = Some a →
            (i < label_count)%nat ∧
            a = seq 0 (length (numpy_where label_block (Z.of_nat i + 1)))) as Hinit.
  { intros i a. unfold initial_pools. rewrite list_lookup_fmap, fmap_Some.
    intros (w & Hw & ->). apply wh_list_lookup in Hw as [? ->]. done. }
  split; simpl.
  - split.
    + unfold initial_pools, class_coordinates. by rewrite !length_fmap, length_seq.
    + intros i a Ha. apply Hinit in Ha as [_ ->]. split; [apply NoDup_seq|].
      intros x Hx. apply elem_of_seq in Hx. lia.
  - done.
  - by intros o ?%elem_of_nil.
  - intros k o p i x Hk. by rewrite lookup_nil in Hk.
  - intros k o p v Hk. by rewrite lookup_nil in Hk.
  - intros i x p Hc Hnp. exfalso. apply Hnp. destruct Hc as [Hi Hx].
    exists (seq 0 (length (numpy_where label_block (Z.of_nat i + 1)))). split.
    + unfold initial_pools. rewrite list_lookup_fmap.
      by rewrite (proj2 (wh_list_lookup i _) (conj Hi eq_refl)).
    + apply elem_of_seq. apply lookup_lt_Some in Hx. lia.
  - intros; lia.
Qed.

Lemma round_inv_step (j : nat) av0 outs av1 blk :
  Z.of_nat j < n → round_inv label_block label_count n j (av0, outs) →
  class_inv label_block label_count n (Z.of_nat j) av0 label_count (av1, blk) →
  round_inv label_block label_count n (S j) (av1, outs ++ [blk]).
Proof.
  intros Hj [[Hlen0 Hok0] Hlen Hfr Hpooled Hvals Hasg _]
         [Hlen1 Hfr1 _ Hdr Hvals1 Hset1]. simpl in *.
  assert (∀ i a1, av1 !! i = Some a1 →
            ∃ a0, av0 !! i = Some a0 ∧ drawn n (Z.of_nat j) a0 a1) as Hdr'.
  { intros i a1 Ha1. pose proof (lookup_lt_Some _ _ _ Ha1) as Hi.
    destruct (lookup_lt_is_Some_2 av0 i) as [a0 Ha0]; [lia|].
    destruct (Hdr i a0) as (a1' & Ha1' & Hd); [lia|done|].
    exists a0. split; [done|]. congruence. }
  assert (∀ i x, pooled av1 i x → pooled av0 i x) as Hsub.
  { intros i x (a1 & Ha1 & Hx). destruct (Hdr' i a1 Ha1) as (a0 & Ha0 & Hd).
    exists a0. split; [done|]. by eapply drawn_subseteq. }
  assert (∀ p i x, coord label_block label_count i x p → pooled av0 i x →
            ∀ v, data blk !! p = Some v → v ≠ 0 → ¬ pooled av1 i x) as Hblk_nz.
  { intros p i x Hc Hp0 v Hv Hnz.
    destruct (Hvals1 p v Hv) as [?|(i' & x' & _ & Hc' & _ & Hnp & _)]; [done|].
    destruct (coord_inj _ _ _ _ _ Hc Hc') as [-> ->]. done. }
  assert (∀ p, (p < length (data label_block))%nat → is_Some (data blk !! p)) as Hblk_some.
  { intros p Hp. apply lookup_lt_is_Some_2. destruct Hfr1 as (_ & _ & ->). done. }
  assert (∀ p i x, coord label_block label_count i x p → ¬ pooled av0 i x →
            data blk !! p = Some 0) as Hblk_z.
  { intros p i x Hc Hnp0. destruct (Hblk_some p) as [v Hv]; [by eapply coord_lt|].
    destruct (Hvals1 p v Hv) as [->|(i' & x' & _ & Hc' & Hp0 & _)]; [done|].
    destruct (coord_inj _ _ _ _ _ Hc Hc') as [-> ->]. done. }
  split; simpl.
  - split; [done|]. intros i a1 Ha1.
    destruct (Hdr' i a1 Ha1) as (a0 & Ha0 & Hd). destruct (Hok0 i a0 Ha0) as [Hnd Hlt].
    split; [by eapply drawn_NoDup|]. intros x Hx. eapply Hlt, drawn_subseteq; done.
  - rewrite length_app. simpl. lia.
  - intros o [Ho| ->%list_elem_of_singleton]%elem_of_app; [by apply Hfr|done].
  - intros k o p i x [Hk|[-> ->]]%lookup_snoc_Some Hc Hp1.
    + eapply Hpooled; [done|done|]. by apply Hsub.
    + destruct (Hblk_some p) as [v Hv]; [by eapply coord_lt|].
      destruct (decide (v = 0)) as [->|Hnz]; [done|].
      exfalso. eapply Hblk_nz; [done|by apply Hsub|done|done|done].
  - intros k o p v [Hk|[-> ->]]%lookup_snoc_Some Hv.
    + destruct (Hvals k o p v Hk Hv) as [?|(i & x & Hc & -> & Hnp & Hoth)]; [by left|].
      right. exists i, x. split; [done|]. split; [done|]. split; [by intros ?%Hsub|].
      intros k' o' Hne [Hk'|[-> ->]]%lookup_snoc_Some.
      * by eapply Hoth.
      * by eapply Hblk_z.
    + destruct (Hvals1 p v Hv) as [?|(i & x & _ & Hc & Hp0 & Hnp & ->)]; [by left|].
      right. exists i, x. split; [done|]. split; [done|]. split; [done|].
      intros k' o' Hne [Hk'|[-> _]]%lookup_snoc_Some; [|done].
      by eapply Hpooled.
  - intros i x p Hc Hnp. destruct Hc as [Hi Hx].
    destruct (lookup_lt_is_Some_2 av0 i) as [a0 Ha0]; [lia|].
    destruct (decide (x ∈ a0)) as [Hin|Hnin].
    + exists (length outs), blk. split; [apply lookup_snoc_Some; by right|].
      apply (Hset1 i x p); [done|by split| |done]. by exists a0.
    + destruct (Hasg i x p) as (k & o & Hk & Hv); [by split| |].
      { intros (a & Ha & Hxa). congruence. }
      exists k, o. split; [apply lookup_snoc_Some; by left|done].
  - intros _ Hn i a1 Ha1. destruct (Hdr' i a1 Ha1) as (a0 & _ & Hd).
    eapply drawn_last; [|done]. lia.
Qed.

Lemma scatter_rounds_ok (m : nat) g :
  (∀ j, (j < m)%nat → Z.of_nat j < n) →
  ∃ av outs g',
    scatter_rounds sample_choice label_block label_count n (py_range (Z.of_nat m)) g
      = (Ok (av, outs), g') ∧
    round_inv label_block label_count n m (av, outs).
Proof.
  intros Hm. unfold scatter_rounds.
  destruct (foldM_inv
              (scatter_round sample_choice label_block label_count
                 (class_coordinates label_block label_count) n)
              (py_range (Z.of_nat m)) (round_inv label_block label_count n))
    with (st := (initial_pools (class_coordinates label_block label_count), @nil ndarray)) (s := g)
    as ([av outs] & g' & Hrun & Hinv).
  - intros j k [av0 outs0] s Hk Hinv. apply py_range_lookup in Hk as [Hj ->].
    rewrite Nat2Z.id in Hj.
    destruct (scatter_round_ok j av0 outs0 s) as (av1 & blk & s' & Hr & Hc).
    { by apply Hm. }
    { exact (ri_pools _ _ _ _ _ Hinv). }
    exists (av1, outs0 ++ [blk]), s'. split; [done|].
    apply (round_inv_step j av0); [by apply Hm|done|done].
  - apply round_inv_init.
  - rewrite py_range_length, Nat2Z.id in Hinv. by exists av, outs, g'.
Qed.

Lemma py_range_to_nat : py_range n = py_range (Z.of_nat (Z.to_nat n)).
Proof. unfold py_range. by rewrite Nat2Z.id. Qed.

(** The partitioner returns, and the invariant holds of what it returns. *)
Lemma scatter_labels_single_block_inv g :
  ∃ av outs g',
    scatter_rounds sample_choice label_block label_count n (py_range n) g
      = (Ok (av, outs), g') ∧
    scatter_labels_single_block sample_choice label_block label_count n g
      = (Ok outs, g') ∧
    round_inv label_block label_count n (Z.to_nat n) (av, outs).
Proof.
  destruct (scatter_rounds_ok (Z.to_nat n) g) as (av & outs & g' & Hrun & Hinv).
  { intros j Hj. lia. }
  rewrite <- py_range_to_nat in Hrun.
  exists av, outs, g'. split; [done|]. split; [|done].
  unfold scatter_labels_single_block. by rewrite (bind_ok _ _ _ _ _ Hrun).
Qed.

End ScatterProofs.

(** ** Properties of the single-block partitioner *)

Section ScatterClaims.

Context {rng : Type}.
Variable sample_choice : list nat → nat → rng → list nat * rng.
Hypothesis sample_choice_spec : ∀ l k g, (k ≤ length l)%nat →
  length (sample_choice l k g).1 = k ∧ (sample_choice l k g).1 ⊆+ l.

Lemma class_positions_elem a c p : p ∈ class_positions a c ↔ data a !! p = Some c.
Proof. unfold class_positions. by rewrite elem_of_list_to_set, numpy_where_elem. Qed.

Lemma round_inv_final_not_pooled b lc n av outs i x :
  1 ≤ n → round_inv b lc n (Z.to_nat n) (av, outs) → ¬ pooled av i x.
Proof.
  intros Hn Hinv (a & Ha & Hx).
  rewrite (ri_empty _ _ _ _ _ Hinv ltac:(lia) ltac:(lia) i a Ha) in Hx.
  by apply elem_of_nil in Hx.
Qed.

Lemma class_of_value lc c :
  1 ≤ c ≤ Z.of_nat lc → ∃ i, (i < lc)%nat ∧ c = Z.of_nat i + 1.
Proof. intros Hc. exists (Z.to_nat (c - 1)). lia. Qed.

Lemma round_inv_out_of_range b lc n j av outs k o p v :
  round_inv b lc n j (av, outs) → outs !! k = Some o →
  data b !! p = Some v → ¬ (1 ≤ v ≤ Z.of_nat lc) → data o !! p = Some 0.
Proof.
  intros Hinv Hk Hv Hout.
  destruct (ri_frame _ _ _ _ _ Hinv o) as (_ & _ & Hlen).
  { by eapply list_elem_of_lookup_2. }
  destruct (lookup_lt_is_Some_2 (data o) p) as [v' Hv'].
  { rewrite Hlen. by eapply lookup_lt_Some. }
  destruct (ri_vals _ _ _ _ _ Hinv k o p v' Hk Hv')
    as [->|(i & x & Hc & -> & _)]; [done|].
  pose proof (coord_data _ _ _ _ _ Hc) as Hd. destruct Hc as [Hi _].
  exfalso. apply Hout. rewrite Hv in Hd. injection Hd as ->. lia.
Qed.






(** *** The multi-block aggregator *)

Lemma append_rounds_ok (outs : list ndarray) (ret : list (list ndarray)) (g : rng) :
  length outs = length ret →
  ∃ ret',
    foldM (λ ib rl, append_round rl ib) (imap pair outs) ret g = (Ok ret', g) ∧
    length ret' = length ret ∧
    ∀ i r', ret' !! i = Some r' →
      ∃ r o, ret !! i = Some r ∧ outs !! i = Some o ∧ r' = r ++ [o].
Proof.
  intros Hlen.
  destruct (foldM_inv_st (λ ib rl, append_round (rng := rng) rl ib) (imap pair outs)
    (λ m rl s, s = g ∧ length rl = length ret ∧
       (∀ i r', (i < m)%nat → rl !! i = Some r' →
          ∃ r o, ret !! i = Some r ∧ outs !! i = Some o ∧ r' = r ++ [o]) ∧
       (∀ i, (m ≤ i)%nat → rl !! i = ret !! i)))
    with (st := ret) (s := g) as (ret' & g' & Hrun & -> & Hl & Hlow & _).
  - intros m [i b] rl s Hm (-> & Hl & Hlow & Hhigh).
    rewrite list_lookup_imap in Hm. apply fmap_Some in Hm as (o & Ho & [= -> ->]).
    destruct (lookup_lt_is_Some_2 ret m) as [r Hr].
    { rewrite <- Hlen. by eapply lookup_lt_Some. }
    assert (rl !! m = Some r) as Hrl by (rewrite Hhigh; [done|lia]).
    exists (<[m := r ++ [o]]> rl), g. split.
    { unfold append_round. by rewrite (bind_ok _ _ _ _ _ (getitem_ok rl m r g Hrl)). }
    split; [done|]. split; [by rewrite length_insert|]. split.
    + intros i r' Hi. destruct (decide (i = m)) as [->|Hne].
      * rewrite list_lookup_insert_eq by (by eapply lookup_lt_Some).
        intros [= <-]. by exists r, o.
      * rewrite list_lookup_insert_ne by done. apply Hlow. lia.
    + intros i Hi. rewrite list_lookup_insert_ne by lia. apply Hhigh. lia.
  - split; [done|]. split; [done|]. split; [intros; lia|done].
  - exists ret'. split; [done|]. split; [done|].
    intros i r' Hr'. apply (Hlow i r'); [|done].
    rewrite length_imap, Hlen, <- Hl. by eapply lookup_lt_Some.
Qed.


End ScatterClaims.

(** ** Properties of the training loop *)

Section AutocontextClaims.

Context {rng project slices : Type}.
Variable sample_choice : list nat → nat → rng → list nat * rng.
Variable ilp : ilp_interface project slices.
Variable seed_state : Z → rng.

Lemma quiet_ret {A} (a : A) : quiet (ret (S := @world rng project) a).
Proof. by intros w. Qed.

Lemma quiet_raise {A} e : quiet (raise (S := @world rng project) (A := A) e).
Proof. by intros w. Qed.

Lemma quiet_bind {A B} (m : M (@world rng project) A) (f : A → M (@world rng project) B) :
  quiet m → (∀ a, quiet (f a)) → quiet (bind m f).
Proof.
  intros Hm Hf w. unfold bind. specialize (Hm w).
  destruct (m w) as [[a|e] w1]; simpl in *; [|done].
  by rewrite Hf.
Qed.

Lemma quiet_attr {A} (f : project → A) : quiet (rng := rng) (attr f).
Proof. by intros w. Qed.

Lemma quiet_method {A} c (op : M project A) :
  is_round_call c = false → quiet (rng := rng) (method c op).
Proof.
  intros Hc w. unfold method. destruct (op (w_project w)) as [r p']. simpl.
  unfold round_calls. simpl. rewrite filter_app, filter_cons_False, filter_nil.
  - apply app_nil_r.
  - rewrite Hc. intros [].
Qed.

Lemma quiet_mapM {A B} (f : A → M (@world rng project) B) l :
  (∀ a, quiet (f a)) → quiet (mapM f l).
Proof.
  intros Hf. induction l as [|a l IH]; simpl; [apply quiet_ret|].
  apply quiet_bind; [done|]. intros b.
  apply quiet_bind; [done|]. intros bs. apply quiet_ret.
Qed.

Lemma setup_quiet runs label_data_nr weights :
  quiet (rng := rng) (autocontext_setup ilp runs label_data_nr weights).
Proof.
  unfold autocontext_setup. case_decide; [apply quiet_raise|].
  apply quiet_bind; [by apply quiet_method|]. intros _.
  apply quiet_bind; [apply quiet_attr|]. intros dc.
  apply quiet_bind.
  { apply quiet_mapM. intros i. by apply quiet_method. }
  intros keep. apply quiet_bind; [apply quiet_attr|]. intros lc.
  apply quiet_bind; [|intros; apply quiet_ret].
  case_decide.
  - apply quiet_bind; [apply quiet_attr|]. intros c. apply quiet_mapM.
    intros i. apply quiet_bind; [by apply quiet_method|]. intros; apply quiet_ret.
  - apply quiet_bind; [by apply quiet_method|]. intros; apply quiet_ret.
Qed.



Lemma scatter_rounds_nil label_block label_count n (g : rng) :
  n < 1 →
  scatter_labels_single_block sample_choice label_block label_count n g = (Ok [], g).
Proof.
  intros Hn. unfold scatter_labels_single_block, scatter_rounds, py_range.
  replace (Z.to_nat n) with 0%nat by lia. done.
Qed.

(** C4, as the code has it: a list of weights shorter than the number of
    runs is rejected by [autocontext] before any call on the project and
    any sampling, the world being left as it was; a split count smaller
    than 1 is not rejected: both scatter functions return an empty list of
    rounds and leave the random state as it was. *)
Theorem weights_rejected_small_split_empty :
  (∀ runs label_data_nr ws (w : @world rng project),
     Z.of_nat (length ws) < runs →
     autocontext sample_choice ilp runs label_data_nr (Some ws) w = (Raise WeightsError, w)) ∧
  (∀ label_block label_blocks label_count n (g : rng),
     n < 1 →
     scatter_labels_single_block sample_choice label_block label_count n g
       = (Ok [], g) ∧
     scatter_labels sample_choice label_blocks label_count n g = (Ok [], g)).
Proof.
  split.
  - intros runs label_data_nr ws w Hlen. unfold autocontext.
    apply bind_raise. unfold autocontext_setup. by rewrite decide_True.
  - intros label_block label_blocks label_count n g Hn.
    split; [by apply scatter_rounds_nil|].
    unfold scatter_labels, py_range. replace (Z.to_nat n) with 0%nat by lia.
    change ((λ _ : Z, @nil ndarray) <$> (Z.of_nat <$> seq 0 0)) with (@nil (list ndarray)).
    induction label_blocks as [|b bs IH]; [done|].
    cbn [foldM]. erewrite bind_ok; [apply IH|].
    by rewrite (bind_ok _ _ _ _ _ (scatter_rounds_nil b label_count n g Hn)).
Qed.

End AutocontextClaims.
(** ** The concrete sampler and the properties at concrete inputs *)

Lemma lcg_choice_spec l k g :
  (k ≤ length l)%nat →
  length (lcg_choice l k g).1 = k ∧ (lcg_choice l k g).1 ⊆+ l.
Proof.
  revert l g. induction k as [|k IH]; intros l g Hk.
  - split; [done|]. apply submseteq_nil_l.
  - cbn [lcg_choice].
    assert (N.to_nat (g mod N.of_nat (length l)) < length l)%nat as Hj.
    { pose proof (N.mod_lt g (N.of_nat (length l))). lia. }
    destruct (lookup_lt_is_Some_2 l _ Hj) as [x Hx]. rewrite Hx.
    destruct (IH (delete (N.to_nat (g mod N.of_nat (length l))) l) (lcg_next g))
      as [Hlen Hsub].
    { rewrite length_delete by eauto. lia. }
    destruct (lcg_choice _ k (lcg_next g)) as [r g']. simpl in *.
    split; [lia|]. rewrite (delete_Permutation l _ x Hx). by apply submseteq_skip.
Qed.

(** The example scenario: ten voxels, class 1 at four of them and class 2
    at two, split in two rounds; each round gets 2 labels of class 1 and 1
    of class 2. *)
Example scenario_two_rounds :
  ∃ outs g',
    scatter_labels_single_block lcg_choice example_block 2 2 7%N = (Ok outs, g') ∧
    labels_per_round 1 outs = [2; 2]%nat ∧ labels_per_round 2 outs = [1; 1]%nat.
Proof. eexists _, _. repeat split; reflexivity. Qed.

(** The scatter does depend on the random state it starts from. *)
Example scatter_depends_on_random_state :
  (scatter_labels_single_block lcg_choice example_block 2 2 7%N).1 ≠
  (scatter_labels_single_block lcg_choice example_block 2 2 8%N).1.
Proof. vm_compute. discriminate. Qed.








Lemma weights_rejected_small_split_empty_witness :
  Z.of_nat (length [1; 1]) < 3 ∧
  autocontext lcg_choice (example_ilp 1 example_block) 3 (-1) (Some [1; 1])
    example_world = (Raise WeightsError, example_world) ∧
  0 < 1 ∧
  scatter_labels_single_block lcg_choice example_block 2 0 7%N = (Ok [], 7%N) ∧
  scatter_labels lcg_choice [example_block; stray_block] 2 0 7%N = (Ok [], 7%N).
Proof.
  destruct (weights_rejected_small_split_empty lcg_choice
              (example_ilp 1 example_block)) as [Hweights Hsplit].
  split; [simpl; lia|]. split; [apply Hweights; simpl; lia|]. split; [lia|].
  apply Hsplit. lia.
Defined.

(** The claim C4 fails for the split count: with split counts 0 and -1 the
    scatter functions raise nothing and return an empty list of rounds, and
    [autocontext] with 0 runs on a project without label sets ends
    normally. *)
Lemma small_split_count_not_rejected :
  scatter_labels_single_block lcg_choice example_block 2 0 7%N = (Ok [], 7%N) ∧
  scatter_labels lcg_choice [example_block] 2 (-1) 7%N = (Ok [], 7%N) ∧
  (autocontext lcg_choice (example_ilp 0 example_block) 0 (-1) None example_world).1
    = Ok () ∧
  ¬ ∃ e g',
      scatter_labels_single_block lcg_choice example_block 2 0 7%N = (Raise e, g').
Proof.
  split; [reflexivity|]. split; [reflexivity|]. split; [reflexivity|].
  intros (e & g' & H). discriminate H.
Qed.

(** C2 at the weights of the docstring of [autocontext], runs = 3 and
    weights = [3, 2, 1], on six labels of one class: the scatter gives each
    round 2 labels, where the weights call for 3, 2 and 1, and the training
    loop, which passes the weights, ends with TypeError. *)
Theorem weights_not_used_by_scatter :
  (∃ outs g',
     scatter_labels_single_block lcg_choice six_labels 1 3 7%N = (Ok outs, g') ∧
     labels_per_round 1 outs = [2; 2; 2]%nat) ∧
  (autocontext lcg_choice (example_ilp 1 six_labels) 3 (-1) (Some [3; 2; 1])
     example_world).1 = Raise TypeError.
Proof.
  split; [|reflexivity]. eexists _, _. split; reflexivity.
Qed.

(** ** The shares of the rounds *)

Lemma ceil_div_unique a b c : 0 < b → (c - 1) * b < a ≤ c * b → ceil_div a b = c.
Proof.
  intros Hb Hc. unfold ceil_div.
  rewrite <- (Z.div_unique (- a) b (- c) (c * b - a)); lia.
Qed.

Lemma remaining_0 p n : 0 < n → remaining p n 0 = p.
Proof.
  intros Hn. unfold remaining. pose proof (Z.mod_pos_bound p n Hn). lia.
Qed.

Lemma remaining_succ p n j :
  0 ≤ j → remaining p n (j + 1) = remaining p n j - share p n j.
Proof. intros Hj. unfold remaining, share. case_decide; lia. Qed.

Lemma ceil_div_remaining p n j :
  0 ≤ j < n → ceil_div (remaining p n j) (n - j) = share p n j.
Proof.
  intros Hj. unfold remaining, share.
  pose proof (Z.mod_pos_bound p n ltac:(lia)) as Hr.
  pose proof (Z.div_mod p n ltac:(lia)) as Hp.
  apply ceil_div_unique; [lia|]. case_decide; nia.
Qed.

Section ScatterCounts.

Context {rng : Type}.
Variable sample_choice : list nat → nat → rng → list nat * rng.
Hypothesis sample_choice_spec : ∀ l k g, (k ≤ length l)%nat →
  length (sample_choice l k g).1 = k ∧ (sample_choice l k g).1 ⊆+ l.

Variable label_block : ndarray.
Variable label_count : nat.
Variable n : Z.
Hypothesis label_block_wf : ndarray_wf label_block.

(** The voxels of a class in the block of a round are those of the indices
    the round took from the pool of the class. *)
Lemma class_inv_block_count k av0 av1 blk i a0 a1 :
  pools_ok label_block label_count av0 →
  class_inv label_block label_count n k av0 label_count (av1, blk) →
  av0 !! i = Some a0 → av1 !! i = Some a1 →
  (length (numpy_where blk (Z.of_nat i + 1)) + length a1 = length a0)%nat.
Proof.
  intros [Hlen0 Hok0] Hinv Ha0 Ha1.
  assert (i < label_count)%nat as Hi by (apply lookup_lt_Some in Ha0; lia).
  destruct (Hok0 i a0 Ha0) as [Hnd0 Hlt0].
  destruct (ci_drawn _ _ _ _ _ _ _ Hinv i a0 Hi Ha0) as (a1' & Ha1' & Hd).
  simpl in Ha1'. assert (a1' = a1) as -> by congruence.
  pose proof (drawn_NoDup _ _ _ _ Hd Hnd0) as Hnd1.
  assert (a1 ⊆+ a0) as Hsub.
  { destruct Hd as (ch & _ & _ & ->). apply sublist_submseteq, sublist_filter. }
  rewrite <- (filter_not_elem_length a1 a0 Hsub Hnd0). f_equal.
  set (w := numpy_where label_block (Z.of_nat i + 1)).
  set (D := filter (λ x, x ∉ a1) a0).
  assert (∀ x, x ∈ D → w !! x = Some (default 0%nat (w !! x))) as Hw.
  { intros x [_ Hx]%list_elem_of_filter.
    destruct (lookup_lt_is_Some_2 w x (Hlt0 x Hx)) as [p Hp]. by rewrite Hp. }
  rewrite <- (length_fmap (λ x, default 0%nat (w !! x)) D).
  apply Permutation_length, NoDup_Permutation.
  - apply numpy_where_NoDup.
  - apply NoDup_fmap_2_strong; [|by apply NoDup_filter].
    intros x y Hx Hy Heq. apply Hw in Hx, Hy. rewrite Heq in Hx.
    eapply NoDup_lookup; [apply numpy_where_NoDup|done..].
  - intros p. rewrite numpy_where_elem, list_elem_of_fmap. split.
    + intros Hp.
      destruct (ci_vals _ _ _ _ _ _ _ Hinv p _ Hp)
        as [?|(i' & x & _ & Hc & Hp0 & Hnp & Hv)]; [lia|].
      assert (i' = i) as -> by lia. simpl in Hnp.
      destruct Hp0 as (a & Ha & Hx). assert (a = a0) as -> by congruence.
      exists x. destruct Hc as [_ Hc]. fold w in Hc. split; [by rewrite Hc|].
      apply list_elem_of_filter. split; [|done].
      intros Hx1. apply Hnp. by exists a1.
    + intros (x & -> & Hx). pose proof (Hw x Hx) as Hwx.
      apply list_elem_of_filter in Hx as [Hx1 Hx0].
      apply (ci_set _ _ _ _ _ _ _ Hinv i x); [done|by split|by exists a0|].
      simpl. intros (a & Ha & Hxa). assert (a = a1) as -> by congruence. done.
Qed.

Lemma count_inv_init :
  0 < n →
  count_inv label_block label_count n 0
    (initial_pools (class_coordinates label_block label_count), []).
Proof.
  intros Hn. split; simpl.
  - intros i a. unfold initial_pools. rewrite list_lookup_fmap, fmap_Some.
    intros (w & Hw & ->). apply wh_list_lookup in Hw as [_ ->].
    by rewrite length_seq, remaining_0.
  - intros k o i Hk. by rewrite lookup_nil in Hk.
Qed.

Lemma count_inv_step (j : nat) av0 outs av1 blk :
  Z.of_nat j < n →
  round_inv label_block label_count n j (av0, outs) →
  count_inv label_block label_count n j (av0, outs) →
  class_inv label_block label_count n (Z.of_nat j) av0 label_count (av1, blk) →
  count_inv label_block label_count n (S j) (av1, outs ++ [blk]).
Proof.
  intros Hj Hrinv [Hpools Hblocks] Hcinv. simpl in *.
  pose proof (ri_pools _ _ _ _ _ Hrinv) as Hok. simpl in Hok.
  pose proof (ci_len _ _ _ _ _ _ _ Hcinv) as Hlen1. simpl in Hlen1.
  assert (∀ i a1, av1 !! i = Some a1 →
            ∃ a0, av0 !! i = Some a0 ∧
              Z.of_nat (length a1) =
                Z.of_nat (length a0)
                - ceil_div (Z.of_nat (length a0)) (n - Z.of_nat j) ∧
              (length (numpy_where blk (Z.of_nat i + 1)) + length a1
               = length a0)%nat) as Hdraw.
  { intros i a1 Ha1. pose proof (lookup_lt_Some _ _ _ Ha1) as Hi.
    rewrite Hlen1 in Hi.
    destruct (lookup_lt_is_Some_2 av0 i) as [a0 Ha0]; [destruct Hok; lia|].
    destruct (ci_drawn _ _ _ _ _ _ _ Hcinv i a0 Hi Ha0) as (a1' & Ha1' & Hd).
    simpl in Ha1'. assert (a1' = a1) as -> by congruence.
    exists a0. split; [done|]. split.
    - apply (drawn_length _ _ _ _ Hd). by apply (proj2 Hok i).
    - by eapply class_inv_block_count. }
  split; simpl.
  - intros i a1 Ha1. destruct (Hdraw i a1 Ha1) as (a0 & Ha0 & Hlen & _).
    rewrite Nat2Z.inj_succ, <- Z.add_1_r, remaining_succ by lia.
    rewrite <- ceil_div_remaining by lia. rewrite <- (Hpools i a0 Ha0). done.
  - intros k o i [Hk|[-> ->]]%lookup_snoc_Some Hi; [by apply Hblocks|].
    pose proof (ri_len _ _ _ _ _ Hrinv) as Hlo. simpl in Hlo. rewrite Hlo.
    destruct (lookup_lt_is_Some_2 av1 i) as [a1 Ha1].
    { by rewrite Hlen1. }
    destruct (Hdraw i a1 Ha1) as (a0 & Ha0 & Hlen & Hcnt).
    rewrite <- ceil_div_remaining by lia. rewrite <- (Hpools i a0 Ha0). lia.
Qed.

(** The partitioner returns, and both invariants hold of what it returns. *)
Lemma scatter_labels_single_block_counts g :
  1 ≤ n →
  ∃ av outs g',
    scatter_labels_single_block sample_choice label_block label_count n g
      = (Ok outs, g') ∧
    round_inv label_block label_count n (Z.to_nat n) (av, outs) ∧
    count_inv label_block label_count n (Z.to_nat n) (av, outs).
Proof.
  intros Hn. unfold scatter_labels_single_block, scatter_rounds.
  destruct (foldM_inv
              (scatter_round sample_choice label_block label_count
                 (class_coordinates label_block label_count) n)
              (py_range n)
              (λ j st, (j ≤ Z.to_nat n)%nat ∧
                       round_inv label_block label_count n j st ∧
                       count_inv label_block label_count n j st))
    with (st := (initial_pools (class_coordinates label_block label_count),
                 @nil ndarray)) (s := g)
    as ([av outs] & g' & Hrun & _ & Hrinv & Hcinv).
  - intros j k [av0 outs0] s Hk (_ & Hrinv & Hcinv).
    apply py_range_lookup in Hk as [Hj ->].
    destruct (scatter_round_ok sample_choice sample_choice_spec label_block
                label_count n label_block_wf j av0 outs0 s)
      as (av1 & blk & s' & Hr & Hc); [lia|exact (ri_pools _ _ _ _ _ Hrinv)|].
    exists (av1, outs0 ++ [blk]), s'. split; [done|]. split; [lia|]. split.
    + apply (round_inv_step _ _ _ j av0); [lia|done|done].
    + apply (count_inv_step j av0); [lia|done|done|done].
  - split; [lia|]. split; [apply round_inv_init|apply count_inv_init; lia].
  - rewrite py_range_length in Hrinv, Hcinv. exists av, outs, g'.
    split; [|done]. by rewrite (bind_ok _ _ _ _ _ Hrun).
Qed.

End ScatterCounts.

Section ScatterShares.

Context {rng : Type}.
Variable sample_choice : list nat → nat → rng → list nat * rng.
Hypothesis sample_choice_spec : ∀ l k g, (k ≤ length l)%nat →
  length (sample_choice l k g).1 = k ∧ (sample_choice l k g).1 ⊆+ l.


Lemma voxel_sum_zero outs p :
  (∀ o, o ∈ outs → data o !! p = Some 0) → voxel_sum outs p = 0.
Proof.
  induction outs as [|o outs IH]; intros Hz; simpl; [done|].
  rewrite (Hz o) by left. rewrite IH; [done|]. intros o' Ho'. apply Hz. by right.
Qed.

Lemma voxel_sum_single outs p k o v :
  outs !! k = Some o → data o !! p = Some v →
  (∀ k' o', k' ≠ k → outs !! k' = Some o' → data o' !! p = Some 0) →
  voxel_sum outs p = v.
Proof.
  revert k. induction outs as [|o1 outs IH]; intros k Hk Hv Hoth; [done|].
  destruct k as [|k]; simpl in *.
  - injection Hk as ->. rewrite Hv. simpl. rewrite voxel_sum_zero; [lia|].
    intros o' [k' Hk']%list_elem_of_lookup_1. by apply (Hoth (S k') o').
  - rewrite (Hoth 0%nat o1) by done. simpl. rewrite (IH k Hk Hv); [done|].
    intros k' o' Hne Hk'. apply (Hoth (S k') o'); [lia|done].
Qed.


(** The classes of the blocks of a partition: disjoint between rounds, and
    together the class of the input block. *)
Lemma round_inv_partition b lc n av outs i :
  1 ≤ n → (i < lc)%nat → round_inv b lc n (Z.to_nat n) (av, outs) →
  (∀ k k' o o', k ≠ k' → outs !! k = Some o → outs !! k' = Some o' →
     class_positions o (Z.of_nat i + 1) ## class_positions o' (Z.of_nat i + 1)) ∧
  (∀ p, p ∈ class_positions b (Z.of_nat i + 1) ↔
        ∃ k o, outs !! k = Some o ∧ p ∈ class_positions o (Z.of_nat i + 1)).
Proof.
  intros Hn Hi Hinv. split.
  - intros k k' o o' Hne Hk Hk'. apply elem_of_disjoint. intros p Hp Hp'.
    apply class_positions_elem in Hp, Hp'.
    destruct (ri_vals _ _ _ _ _ Hinv k o p _ Hk Hp) as [?|(_ & _ & _ & _ & _ & Hoth)];
      [lia|].
    rewrite (Hoth k' o' ltac:(done) Hk') in Hp'. injection Hp'. lia.
  - intros p. rewrite class_positions_elem. split.
    + intros Hp. destruct (coord_exists _ _ i p Hi Hp) as [x Hco].
      destruct (ri_assigned _ _ _ _ _ Hinv i x p Hco) as (k & o & Hk & Hv).
      { by eapply round_inv_final_not_pooled. }
      exists k, o. split; [done|]. by apply class_positions_elem.
    + intros (k & o & Hk & Hp). apply class_positions_elem in Hp.
      destruct (ri_vals _ _ _ _ _ Hinv k o p _ Hk Hp) as [?|(i' & x & Hco & Hv & _)];
        [lia|].
      apply coord_data in Hco. rewrite Hco. f_equal. lia.
Qed.

(** The aggregator returns the partitions of the blocks, regrouped. *)
Lemma scatter_labels_blocks_inv label_blocks label_count n g :
  Forall ndarray_wf label_blocks → 1 ≤ n →
  ∃ ret g',
    scatter_labels sample_choice label_blocks label_count n g = (Ok ret, g') ∧
    length ret = Z.to_nat n ∧
    (∀ i r, ret !! i = Some r → length r = length label_blocks) ∧
    ∀ j block, label_blocks !! j = Some block →
      ∃ av outs,
        round_inv block label_count n (Z.to_nat n) (av, outs) ∧
        count_inv block label_count n (Z.to_nat n) (av, outs) ∧
        ∀ i r, ret !! i = Some r → is_Some (r !! j) ∧ r !! j = outs !! i.
Proof.
  intros Hwf Hn. unfold scatter_labels.
  set (body := λ block return_list, bind _ _).
  destruct (foldM_inv body label_blocks
    (λ j ret,
       length ret = Z.to_nat n ∧
       (∀ i r, ret !! i = Some r → length r = j) ∧
       ∀ j' block, (j' < j)%nat → label_blocks !! j' = Some block →
         ∃ av outs,
           round_inv block label_count n (Z.to_nat n) (av, outs) ∧
           count_inv block label_count n (Z.to_nat n) (av, outs) ∧
           ∀ i r, ret !! i = Some r → is_Some (r !! j') ∧ r !! j' = outs !! i))
    with (st := (λ _ : Z, @nil ndarray) <$> py_range n) (s := g)
    as (ret & g' & Hrun & Hlen & Hrows & Hcols).
  - intros j block ret s Hblock (Hlen & Hrows & Hcols).
    destruct (scatter_labels_single_block_counts sample_choice sample_choice_spec
                block label_count n) with (g := s)
      as (av & outs & s' & Hsingle & Hrinv & Hcinv); [|done|].
    { eapply Forall_lookup_1; done. }
    pose proof (ri_len _ _ _ _ _ Hrinv) as Houts. simpl in Houts.
    destruct (append_rounds_ok outs ret s') as (ret' & Happ & Hlen' & Hret');
      [lia|].
    exists ret', s'. split.
    { unfold body. by rewrite (bind_ok _ _ _ _ _ Hsingle). }
    split; [lia|]. split.
    + intros i r' Hr'. destruct (Hret' i r' Hr') as (r & o & Hr & _ & ->).
      rewrite length_app, (Hrows i r Hr). simpl. lia.
    + intros j' block' Hj' Hblock'. destruct (decide (j' = j)) as [->|Hne].
      * assert (block' = block) as -> by congruence.
        exists av, outs. split; [done|]. split; [done|].
        intros i r' Hr'. destruct (Hret' i r' Hr') as (r & o & Hr & Ho & ->).
        rewrite Ho. assert ((r ++ [o]) !! j = Some o) as ->; [|by split].
        apply lookup_snoc_Some. right. by rewrite (Hrows i r Hr).
      * destruct (Hcols j' block' ltac:(lia) Hblock')
          as (av' & outs' & Hr' & Hc' & Hel).
        exists av', outs'. split; [done|]. split; [done|].
        intros i r' Hri. destruct (Hret' i r' Hri) as (r & o & Hr & Ho & ->).
        destruct (Hel i r Hr) as [[b Hb] Heq]. rewrite <- Heq, Hb.
        assert ((r ++ [o]) !! j' = Some b) as ->; [|by split].
        by apply lookup_app_l_Some.
  - split; [by rewrite length_fmap, py_range_length|]. split.
    + intros i r Hr. rewrite list_lookup_fmap in Hr.
      apply fmap_Some in Hr as (_ & _ & ->). done.
    + intros; lia.
  - exists ret, g'. split; [done|]. split; [done|]. split; [done|].
    intros j block Hblock. apply Hcols; [|done]. by eapply lookup_lt_Some.
Qed.


End ScatterShares.

(** ** The training loop on a project without labels *)

Section AutocontextRounds.

Context {rng project slices : Type}.
Variable sample_choice : list nat → nat → rng → list nat * rng.
Variable ilp : ilp_interface project slices.
Hypothesis ilp_ok : ilp_returns ilp.

Lemma method_ok {A} c (op : M project A) (w : @world rng project) a p' :
  op (w_project w) = (Ok a, p') →
  method c op w = (Ok a, mk_world (w_rng w) p' (w_calls w ++ [c])).
Proof. intros H. unfold method. by rewrite H. Qed.

Lemma channel_counts_ok (s m : nat) (w : @world rng project) :
  ∃ keep w',
    mapM (λ i, method (CallGetChannelCount i) (get_channel_count ilp i)) (seq s m) w
      = (Ok keep, w') ∧
    length keep = m ∧ w_rng w' = w_rng w ∧
    w_calls w' = w_calls w ++ (CallGetChannelCount <$> seq s m).
Proof.
  revert s w. induction m as [|m IH]; intros s w.
  - exists [], w. simpl. by rewrite app_nil_r.
  - destruct ilp_ok as (_ & Hget & _).
    destruct (Hget s (w_project w)) as (c & p' & Hc).
    destruct (IH (S s) (mk_world (w_rng w) p' (w_calls w ++ [CallGetChannelCount s])))
      as (keep & w' & Hrun & Hlen & Hrng & Hcalls).
    exists (c :: keep), w'. split.
    { cbn [seq mapM]. rewrite (bind_ok _ _ _ _ _ (method_ok _ _ w c p' Hc)).
      by rewrite (bind_ok _ _ _ _ _ Hrun). }
    split; [simpl; lia|]. split; [done|].
    rewrite Hcalls. simpl. by rewrite <- app_assoc.
Qed.

Lemma merges_ok (done_ rest : list Z) (w : @world rng project) :
  ∃ w',
    foldM (λ k (_ : unit),
             let* keep := getitem (done_ ++ rest) k in
             method (CallMergeOutput k keep) (merge_output_into_dataset ilp k keep))
          (seq (length done_) (length rest)) () w = (Ok (), w') ∧
    w_rng w' = w_rng w ∧
    w_calls w' = w_calls w ++ imap (λ k, CallMergeOutput (length done_ + k)) rest.
Proof.
  revert done_ w. induction rest as [|c rest IH]; intros done_ w.
  - exists w. simpl. by rewrite app_nil_r.
  - destruct ilp_ok as (_ & _ & _ & _ & _ & Hmerge).
    destruct (Hmerge (length done_) c (w_project w)) as (p' & Hm).
    destruct (IH (done_ ++ [c])
                (mk_world (w_rng w) p' (w_calls w ++ [CallMergeOutput (length done_) c])))
      as (w' & Hrun & Hrng & Hcalls).
    exists w'. split.
    { cbn [length seq foldM].
      assert ((done_ ++ c :: rest) !! length done_ = Some c) as Hl.
      { by rewrite lookup_app_r, Nat.sub_diag by lia. }
      erewrite bind_ok.
      2:{ rewrite (bind_ok _ _ _ _ _ (getitem_ok _ _ c w Hl)).
          by apply method_ok. }
      rewrite length_app, <- app_assoc in Hrun. simpl in Hrun.
      by rewrite Nat.add_1_r in Hrun. }
    split; [done|]. rewrite Hcalls. simpl. rewrite <- app_assoc. simpl.
    rewrite Nat.add_0_r. do 2 f_equal. apply imap_ext. intros k x _. simpl.
    f_equal. rewrite length_app. simpl. lia.
Qed.

Lemma round_without_labels_ok keep i (w : @world rng project) :
  ∃ w',
    autocontext_round ilp (length keep) keep [] [] i () w = (Ok (), w') ∧
    w_rng w' = w_rng w ∧
    w_calls w' = w_calls w ++ round_trace keep i.
Proof.
  destruct ilp_ok as (_ & _ & Hretrain & Hsave & Hpredict & _).
  destruct (Hretrain (w_project w)) as (p1 & H1).
  set (w1 := mk_world (w_rng w) p1 (w_calls w ++ [CallRetrain])).
  destruct (Hsave i p1) as (p2 & H2).
  set (w2 := mk_world (w_rng w) p2 (w_calls w1 ++ [CallSave i])).
  destruct (Hpredict p2) as (p3 & H3).
  set (w3 := mk_world (w_rng w) p3 (w_calls w2 ++ [CallPredictAll])).
  destruct (merges_ok [] keep w3) as (w' & Hrun & Hrng & Hcalls).
  exists w'. split.
  { unfold autocontext_round. cbn [zip zip_with foldM].
    rewrite (bind_ok _ _ _ () w) by done.
    rewrite (bind_ok _ _ _ _ _ (method_ok _ _ w () p1 H1)).
    rewrite (bind_ok _ _ _ _ _ (method_ok _ _ w1 () p2 H2)).
    rewrite (bind_ok _ _ _ _ _ (method_ok _ _ w2 () p3 H3)).
    exact Hrun. }
  split; [done|]. rewrite Hcalls. unfold round_trace. simpl.
  rewrite <- !app_assoc. done.
Qed.


End AutocontextRounds.

(** ** The forest files *)

Lemma str_le_total s t : str_le s t = true ∨ str_le t s = true.
Proof.
  revert t. induction s as [|a s IH]; intros [|b t]; simpl; auto.
  destruct (N.lt_trichotomy (N_of_ascii a) (N_of_ascii b)) as [Hlt|[Heq|Hgt]].
  - left. apply orb_true_iff. left. by apply N.ltb_lt.
  - assert (a = b) as ->.
    { by rewrite <- (ascii_N_embedding a), <- (ascii_N_embedding b), Heq. }
    rewrite Ascii.eqb_refl. simpl. rewrite !orb_true_iff. destruct (IH t); auto.
  - right. apply orb_true_iff. left. by apply N.ltb_lt.
Qed.

Global Instance entry_le_total : Total entry_le.
Proof.
  intros [a s] [b t]. unfold entry_le. simpl.
  destruct (Z.lt_trichotomy a b) as [?|[->|?]]; [by left; left| |by right; left].
  destruct (str_le_total s t) as [H|H]; rewrite H; [left|right]; by right.
Qed.

Lemma py_range_Sorted n : Sorted Z.le (py_range n).
Proof.
  unfold py_range. generalize 0%nat. induction (Z.to_nat n) as [|m IH]; intros s.
  - constructor.
  - simpl. constructor; [apply IH|]. destruct m; simpl; constructor. lia.
Qed.

(** A sorted list of pairs whose indices are those of a range is that
    range with its names. *)
Lemma sorted_entries_range (f : Z → pystr) n l :
  l ≡ₚ (λ i, (i, f i)) <$> py_range n →
  sorted_entries l = (λ i, (i, f i)) <$> py_range n.
Proof.
  intros Hperm. unfold sorted_entries.
  pose proof (merge_sort_Permutation entry_le l) as Hms.
  pose proof (Sorted_merge_sort entry_le l) as Hsorted.
  set (l' := merge_sort entry_le l) in *. rewrite Hperm in Hms.
  assert (l'.*1 = py_range n) as Hfst.
  { apply (Sorted_unique Z.le).
    - apply (Sorted_fmap _ entry_le); [|done].
      intros x y [?|[? _]]; lia.
    - apply py_range_Sorted.
    - rewrite Hms, <- list_fmap_compose. by rewrite list_fmap_id. }
  apply list_eq. intros k. rewrite list_lookup_fmap.
  destruct (l' !! k) as [[a s]|] eqn:Hk.
  - assert (l'.*1 !! k = Some a) as Ha by (by rewrite list_lookup_fmap, Hk).
    rewrite Hfst in Ha. rewrite Ha. simpl.
    assert ((a, s) ∈ (λ i, (i, f i)) <$> py_range n) as Hin.
    { rewrite <- Hms. by eapply list_elem_of_lookup_2. }
    apply list_elem_of_fmap in Hin as (i & [= -> ->] & _). done.
  - assert (l'.*1 !! k = None) as Ha by (by rewrite list_lookup_fmap, Hk).
    rewrite Hfst in Ha. by rewrite Ha.
Qed.

Lemma py_slice_affixes {A} (pre mid suf : list A) :
  length pre = 3%nat → length suf = 4%nat →
  py_slice (pre ++ mid ++ suf) None (Some 3) = pre ∧
  py_slice (pre ++ mid ++ suf) (Some 3) (Some (-4)) = mid ∧
  py_slice (pre ++ mid ++ suf) (Some (-4)) None = suf.
Proof.
  intros Hpre Hsuf.
  assert (length (pre ++ mid ++ suf) = (length (pre ++ mid) + 4)%nat) as Hlen.
  { rewrite !length_app. lia. }
  assert (slice_index (length (pre ++ mid ++ suf)) 3 = length pre) as H3.
  { unfold slice_index. rewrite decide_False by lia.
    rewrite Hlen, length_app. lia. }
  assert (slice_index (length (pre ++ mid ++ suf)) (-4) = length (pre ++ mid))
    as H4.
  { unfold slice_index. rewrite decide_True by lia. lia. }
  unfold py_slice. cbn [from_option]. rewrite H3, H4.
  rewrite take_app_length, !drop_0. split; [done|].
  rewrite (app_assoc pre mid suf), take_app_length, drop_app_length.
  split; [done|].
  rewrite firstn_all. by rewrite drop_app_length.
Qed.

Lemma uint_of_zeros k l :
  DecimalString.NilEmpty.uint_of_string
    (String.string_of_list_ascii (replicate k "0"%char ++ l)) =
  Nat.iter k Decimal.D0 <$>
    DecimalString.NilEmpty.uint_of_string (String.string_of_list_ascii l).
Proof.
  induction k as [|k IH]; simpl.
  - by destruct (DecimalString.NilEmpty.uint_of_string _).
  - rewrite IH.
    by destruct (DecimalString.NilEmpty.uint_of_string
                   (String.string_of_list_ascii l)).
Qed.

Lemma of_uint_zeros k u : N.of_uint (Nat.iter k Decimal.D0 u) = N.of_uint u.
Proof. induction k as [|k IH]; simpl; [done|]. exact IH. Qed.

(** The decimal digits of a natural number. *)
Lemma py_str_int_digits i :
  0 ≤ i →
  ∃ u, u ≠ Decimal.Nil ∧
    py_str_int i = lit (DecimalString.NilEmpty.string_of_uint u) ∧
    N.of_uint u = Z.to_N i.
Proof.
  intros Hi. destruct i as [|p|p]; [| |lia].
  - exists (Decimal.D0 Decimal.Nil). done.
  - exists (Pos.to_uint p). split; [apply DecimalPos.Unsigned.to_uint_nonnil|].
    split; [|apply DecimalPos.Unsigned.of_to].
    unfold py_str_int. simpl. unfold DecimalString.NilZero.string_of_uint.
    pose proof (DecimalPos.Unsigned.to_uint_nonnil p).
    by destruct (Pos.to_uint p).
Qed.

Lemma digits_no_sign u :
  u ≠ Decimal.Nil →
  ∃ c rest, lit (DecimalString.NilEmpty.string_of_uint u) = c :: rest ∧
            sign_char c = false.
Proof. intros Hu. destruct u; [done|..]; eexists _, _; split; done. Qed.

Section ForestProofs.

Variable int_other : pystr → outcome Z.

(** [int] reads back the zero-filled digits of a natural number. *)
Lemma py_int_zfill width i :
  0 ≤ i →
  zfill width (py_str_int i) ≠ [] ∧
  py_int int_other (zfill width (py_str_int i)) = Returns i.
Proof.
  intros Hi. destruct (py_str_int_digits i Hi) as (u & Hu & -> & Hval).
  destruct (digits_no_sign u Hu) as (c & rest & Hd & Hsign).
  unfold zfill. rewrite Hd, Hsign, <- Hd.
  set (k := Z.to_nat _).
  assert (replicate k "0"%char ++ lit (DecimalString.NilEmpty.string_of_uint u) ≠ [])
    as Hne.
  { rewrite Hd. by destruct k. }
  split; [done|]. unfold py_int.
  destruct (replicate k "0"%char ++ _) as [|c' l'] eqn:Heq; [done|].
  rewrite <- Heq, uint_of_zeros. unfold lit.
  rewrite String.string_of_list_ascii_of_string, DecimalString.NilEmpty.usu.
  simpl. rewrite of_uint_zeros, Hval. f_equal. lia.
Qed.

Variable listdir : list pystr.
Variable isfile : pystr → bool.

Lemma forest_step_candidate dirname name acc :
  forest_step int_other isfile dirname name acc =
  if forest_candidate isfile dirname name then
    try* index := py_int int_other (py_slice name (Some 3) (Some (-4))) in
    Returns (acc ++ [(index, path_join dirname name)])
  else Returns acc.
Proof.
  unfold forest_step, forest_candidate.
  destruct (isfile (path_join dirname name)),
    (bool_decide (8 ≤ length name)%nat),
    (bool_decide (py_slice name None (Some 3) = lit "rf_")),
    (bool_decide (py_slice name (Some (-4)) None = lit ".ilp")); reflexivity.
Qed.

Lemma forests_loop dirname names acc l :
  for_each (forest_step int_other isfile dirname) names acc = Returns l ↔
  l = acc ++ omap (forest_entry int_other isfile dirname) names ∧
  ∀ name, name ∈ names → forest_candidate isfile dirname name = true →
    ∃ index, py_int int_other (py_slice name (Some 3) (Some (-4))) = Returns index.
Proof.
  revert acc. induction names as [|name names IH]; intros acc.
  - simpl. rewrite app_nil_r. split.
    + intros [= ->]. split; [done|]. by intros name ?%elem_of_nil.
    + by intros [-> _].
  - cbn [for_each omap list_omap]. rewrite forest_step_candidate.
    unfold forest_entry at 1.
    destruct (forest_candidate isfile dirname name) eqn:Hcand; simpl.
    2:{ rewrite IH. split; intros [-> Hall]; (split; [done|]).
        - intros name' [->|?]%elem_of_cons Hc; [congruence|by apply Hall].
        - intros name' ? Hc. apply Hall; [by right|done]. }
    destruct (py_int int_other (py_slice name (Some 3) (Some (-4))))
      as [index|e] eqn:Hint; simpl.
    + rewrite IH, <- app_assoc. simpl. split; intros [-> Hall]; (split; [done|]).
      * intros name' [->|?]%elem_of_cons Hc; [by exists index|by apply Hall].
      * intros name' ? Hc. apply Hall; [by right|done].
    + split; [done|]. intros [_ Hall].
      destruct (Hall name) as [index Hindex]; [by left|done|congruence].
Qed.

Lemma forest_entry_Some dirname name index full :
  forest_entry int_other isfile dirname name = Some (index, full) ↔
  forest_candidate isfile dirname name = true ∧
  py_int int_other (py_slice name (Some 3) (Some (-4))) = Returns index ∧
  full = path_join dirname name.
Proof.
  unfold forest_entry. destruct (forest_candidate isfile dirname name).
  - destruct (py_int int_other _) as [m|e].
    + split; [by intros [= -> ->]|]. by intros (_ & [= ->] & ->).
    + split; [done|]. by intros (_ & ? & _).
  - split; [done|]. by intros (? & _).
Qed.

Lemma forest_entries_length dirname names :
  (∀ name, name ∈ names → forest_candidate isfile dirname name = true →
     ∃ index, py_int int_other (py_slice name (Some 3) (Some (-4))) = Returns index) →
  length (omap (forest_entry int_other isfile dirname) names) =
  length (filter (λ name, forest_candidate isfile dirname name) names).
Proof.
  induction names as [|name names IH]; intros Hall; [done|].
  cbn [omap list_omap]. rewrite filter_cons. unfold forest_entry at 1.
  destruct (forest_candidate isfile dirname name) eqn:Hcand.
  - destruct (Hall name) as [index ->]; [by left|done|].
    rewrite decide_True by done. simpl. f_equal. apply IH.
    intros name' ?. apply Hall. by right.
  - rewrite decide_False by (by intros ?). apply IH.
    intros name' ?. apply Hall. by right.
Qed.

(** X5 (the forests returned): when [autocontext_forests] returns, the tuple
    returned is not empty, has one entry for each name of the folder that
    is a file, has at least 8 characters, starts with "rf_" and ends with
    ".ilp", and its entry [k] is the path of the name whose part between
    "rf_" and ".ilp" reads as the integer [k]. *)
Theorem autocontext_forests_returns_by_index dirname fs :
  autocontext_forests int_other listdir isfile dirname = Returns fs →
  fs ≠ [] ∧
  length fs =
    length (filter (λ name, forest_candidate isfile dirname name) listdir) ∧
  ∀ k full, fs !! k = Some full ↔
    ∃ name, name ∈ listdir ∧ forest_candidate isfile dirname name = true ∧
      py_int int_other (py_slice name (Some 3) (Some (-4))) = Returns (Z.of_nat k) ∧
      full = path_join dirname name.
Proof.
  unfold autocontext_forests.
  destruct (for_each (forest_step int_other isfile dirname) listdir [])
    as [l0|e] eqn:Hloop; cbn [outcome_bind]; [|done].
  apply forests_loop in Hloop as [-> Hall]. rewrite app_nil_l.
  pose proof (merge_sort_Permutation entry_le
                (omap (forest_entry int_other isfile dirname) listdir)) as Hperm.
  fold (sorted_entries (omap (forest_entry int_other isfile dirname) listdir))
    in Hperm.
  destruct (sorted_entries _) as [|e l] eqn:Hsorted; [done|].
  change ((if bool_decide ((e :: l).*1 = py_range (Z.of_nat (length (e :: l).*2)))
           then Returns (e :: l).*2 else Raises ExcAssertionError) = Returns fs →
          fs ≠ [] ∧
          length fs =
            length (filter (λ name, forest_candidate isfile dirname name) listdir) ∧
          ∀ k full, fs !! k = Some full ↔
            ∃ name, name ∈ listdir ∧ forest_candidate isfile dirname name = true ∧
              py_int int_other (py_slice name (Some 3) (Some (-4)))
                = Returns (Z.of_nat k) ∧
              full = path_join dirname name).
  case_bool_decide as Hfst; [|done]. intros Heq.
  assert (fs = (e :: l).*2) as -> by (by injection Heq). clear Heq.
  rewrite length_fmap in Hfst.
  assert (∀ k a full, (e :: l) !! k = Some (a, full) → a = Z.of_nat k) as Hidx.
  { intros k a full Hk.
    assert ((e :: l).*1 !! k = Some a) as Ha by (by rewrite list_lookup_fmap, Hk).
    rewrite Hfst in Ha. by apply py_range_lookup in Ha as [_ ->]. }
  split; [done|]. split.
  { rewrite length_fmap, Hperm. by apply forest_entries_length. }
  intros k full. rewrite list_lookup_fmap, fmap_Some. split.
  - intros ([a full'] & Hk & ->). simpl.
    pose proof (Hidx k a full' Hk) as ->.
    apply list_elem_of_lookup_2 in Hk. rewrite Hperm in Hk.
    apply list_elem_of_omap in Hk as (name & Hname & Hentry).
    apply forest_entry_Some in Hentry as (Hcand & Hint & ->).
    by exists name.
  - intros (name & Hname & Hcand & Hint & ->).
    assert ((Z.of_nat k, path_join dirname name) ∈ e :: l) as Hin.
    { rewrite Hperm. apply list_elem_of_omap. exists name. split; [done|].
      by apply forest_entry_Some. }
    apply list_elem_of_lookup_1 in Hin as [k' Hk'].
    pose proof (Hidx k' _ _ Hk') as Heq. assert (k' = k) as -> by lia.
    by exists (Z.of_nat k, path_join dirname name).
Qed.

(** X6 (no forest in the folder): when no name of the folder is read as a
    forest, [autocontext_forests] raises ValueError, from the unpacking of
    an empty [zip]; it does not return an empty tuple. *)
Theorem autocontext_forests_without_forest dirname :
  (∀ name, name ∈ listdir → forest_candidate isfile dirname name = false) →
  autocontext_forests int_other listdir isfile dirname = Raises ExcValueError.
Proof.
  intros Hnone. unfold autocontext_forests.
  assert (omap (forest_entry int_other isfile dirname) listdir = []) as Hnil.
  { clear -Hnone. induction listdir as [|name names IH]; [done|].
    cbn [omap list_omap]. unfold forest_entry at 1.
    rewrite (Hnone name) by left. apply IH. intros name' ?. apply Hnone. by right. }
  assert (for_each (forest_step int_other isfile dirname) listdir [] = Returns [])
    as ->; [|done].
  apply forests_loop. rewrite Hnil. split; [done|].
  intros name Hname Hcand. rewrite (Hnone name Hname) in Hcand. done.
Qed.

Lemma forest_name_entry cache_folder runs i :
  0 ≤ i → isfile (forest_filename cache_folder runs i) = true →
  forest_entry int_other isfile cache_folder (forest_name runs i) =
  Some (i, forest_filename cache_folder runs i).
Proof.
  intros Hi Hfile. apply forest_entry_Some.
  unfold forest_filename, forest_name in *.
  set (width := Z.of_nat (length (py_str_int (runs - 1)))) in *.
  destruct (py_int_zfill width i Hi) as [Hne Hint].
  destruct (py_slice_affixes (lit "rf_") (zfill width (py_str_int i)) (lit ".ilp"))
    as (Hbase & Hmid & Hend); [done|done|].
  split; [|by rewrite Hmid].
  unfold forest_candidate. rewrite Hfile, Hbase, Hend.
  rewrite !bool_decide_eq_true_2; [done..|].
  rewrite !length_app.
  destruct (zfill width (py_str_int i)); [done|]. simpl. lia.
Qed.

(** X7 (the saved forests are found again): when the folder holds the
    forest files saved for the runs [0..runs-1] of a training, in any
    order and among names that are not read as forests,
    [autocontext_forests] returns their paths in the order of the runs. *)
Theorem autocontext_forests_finds_saved cache_folder runs others :
  1 ≤ runs →
  listdir ≡ₚ (forest_name runs <$> py_range runs) ++ others →
  (∀ i, i ∈ py_range runs → isfile (forest_filename cache_folder runs i) = true) →
  (∀ name, name ∈ others → forest_candidate isfile cache_folder name = false) →
  autocontext_forests int_other listdir isfile cache_folder =
  Returns (forest_filename cache_folder runs <$> py_range runs).
Proof.
  intros Hruns Hperm Hfiles Hothers.
  set (F := (λ i, (i, forest_filename cache_folder runs i)) <$> py_range runs).
  assert (∀ is_ : list Z, (∀ i, i ∈ is_ → i ∈ py_range runs) →
            omap (forest_entry int_other isfile cache_folder)
                 (forest_name runs <$> is_)
            = (λ i, (i, forest_filename cache_folder runs i)) <$> is_) as Hsaved.
  { induction is_ as [|i is_ IH]; intros Hin; [done|].
    cbn [fmap list_fmap omap list_omap].
    assert (i ∈ py_range runs) as Hi by (apply Hin; left).
    rewrite forest_name_entry; [|..].
    - f_equal. apply IH. intros i' ?. apply Hin. by right.
    - apply list_elem_of_lookup_1 in Hi as [j Hj].
      apply py_range_lookup in Hj as [_ ->]. lia.
    - by apply Hfiles. }
  assert (omap (forest_entry int_other isfile cache_folder) others = []) as Hnone.
  { clear -Hothers. induction others as [|name names IH]; [done|].
    cbn [omap list_omap]. unfold forest_entry at 1.
    rewrite (Hothers name) by left. apply IH. intros name' ?. apply Hothers.
    by right. }
  assert (omap (forest_entry int_other isfile cache_folder) listdir ≡ₚ F) as Hentries.
  { rewrite Hperm, omap_app, Hnone, app_nil_r. by rewrite Hsaved. }
  unfold autocontext_forests.
  assert (for_each (forest_step int_other isfile cache_folder) listdir []
          = Returns (omap (forest_entry int_other isfile cache_folder) listdir))
    as ->.
  { apply forests_loop. split; [done|]. intros name Hname Hcand.
    rewrite Hperm in Hname. apply elem_of_app in Hname as [Hname|Hname].
    - apply list_elem_of_fmap in Hname as (i & -> & Hi).
      exists i. apply (forest_entry_Some cache_folder _ i
                         (forest_filename cache_folder runs i)).
      apply forest_name_entry; [|by apply Hfiles].
      apply list_elem_of_lookup_1 in Hi as [j Hj].
      apply py_range_lookup in Hj as [_ ->]. lia.
    - rewrite (Hothers name Hname) in Hcand. done. }
  simpl. rewrite (sorted_entries_range (forest_filename cache_folder runs) runs)
    by done.
  fold F. destruct F as [|e l] eqn:HF.
  { apply (f_equal length) in HF. unfold F in HF.
    rewrite length_fmap, py_range_length in HF. simpl in HF. lia. }
  rewrite <- HF. unfold F.
  rewrite <- !list_fmap_compose. unfold compose. simpl.
  rewrite list_fmap_id, length_fmap, py_range_length, Z2Nat.id by lia.
  by rewrite bool_decide_eq_true_2.
Qed.

End ForestProofs.

(** ** The further properties at concrete inputs *)




Lemma example_ilp_returns labelsets block : ilp_returns (example_ilp labelsets block).
Proof. repeat split; intros; repeat eexists; reflexivity. Qed.


Lemma autocontext_forests_returns_by_index_witness :
  autocontext_forests int_raises example_folder (λ _, true) (lit "cache")
    = Returns [lit "cache/rf_0.ilp"; lit "cache/rf_1.ilp"] ∧
  [lit "cache/rf_0.ilp"; lit "cache/rf_1.ilp"] ≠ [] ∧
  length [lit "cache/rf_0.ilp"; lit "cache/rf_1.ilp"] =
    length (filter (λ name, forest_candidate (λ _, true) (lit "cache") name)
              example_folder) ∧
  ∀ k full, [lit "cache/rf_0.ilp"; lit "cache/rf_1.ilp"] !! k = Some full ↔
    ∃ name, name ∈ example_folder ∧
      forest_candidate (λ _, true) (lit "cache") name = true ∧
      py_int int_raises (py_slice name (Some 3) (Some (-4))) = Returns (Z.of_nat k) ∧
      full = path_join (lit "cache") name.
Proof.
  split; [reflexivity|].
  apply (autocontext_forests_returns_by_index int_raises example_folder (λ _, true)
           (lit "cache")). reflexivity.
Defined.

Lemma autocontext_forests_without_forest_witness :
  (∀ name, name ∈ [lit "notes.txt"; lit "rf_.ilp"] →
     forest_candidate (λ _, true) (lit "cache") name = false) ∧
  autocontext_forests int_raises [lit "notes.txt"; lit "rf_.ilp"] (λ _, true)
    (lit "cache") = Raises ExcValueError.
Proof.
  assert (∀ name, name ∈ [lit "notes.txt"; lit "rf_.ilp"] →
            forest_candidate (λ _, true) (lit "cache") name = false) as Hnone.
  { intros name Hname. apply elem_of_cons in Hname as [->|Hname]; [reflexivity|].
    apply list_elem_of_singleton in Hname as ->. reflexivity. }
  split; [exact Hnone|].
  apply (autocontext_forests_without_forest int_raises
           [lit "notes.txt"; lit "rf_.ilp"] (λ _, true) (lit "cache") Hnone).
Defined.

Lemma autocontext_forests_finds_saved_witness :
  1 ≤ 2 ∧
  example_folder ≡ₚ (forest_name 2 <$> py_range 2) ++ [lit "notes.txt"] ∧
  (∀ i, i ∈ py_range 2 → (λ _ : pystr, true) (forest_filename (lit "cache") 2 i) = true) ∧
  (∀ name, name ∈ [lit "notes.txt"] →
     forest_candidate (λ _, true) (lit "cache") name = false) ∧
  autocontext_forests int_raises example_folder (λ _, true) (lit "cache") =
  Returns (forest_filename (lit "cache") 2 <$> py_range 2).
Proof.
  assert (example_folder ≡ₚ (forest_name 2 <$> py_range 2) ++ [lit "notes.txt"])
    as Hperm.
  { apply (bool_decide_unpack _). vm_compute. exact I. }
  assert (∀ name, name ∈ [lit "notes.txt"] →
            forest_candidate (λ _, true) (lit "cache") name = false) as Hothers.
  { intros name Hname. apply list_elem_of_singleton in Hname as ->. reflexivity. }
  split; [lia|]. split; [exact Hperm|]. split; [reflexivity|].
  split; [exact Hothers|].
  apply (autocontext_forests_finds_saved int_raises example_folder (λ _, true)
           (lit "cache") 2 [lit "notes.txt"]); [lia|exact Hperm|reflexivity|exact Hothers].
Defined.

(** ** The command line *)

Lemma rfind_from_ge c s i found : -1 ≤ found → 0 ≤ i → -1 ≤ rfind_from c s i found.
Proof.
  revert i found. induction s as [|a s IH]; intros i found Hf Hi; simpl; [done|].
  apply IH; [|lia]. destruct (Ascii.eqb a c); lia.
Qed.

(** The two parts that [splitext] returns make up the path. *)
Lemma splitext_app p : (splitext p).1 ++ (splitext p).2 = p.
Proof.
  unfold splitext.
  pose proof (rfind_from_ge "/" p 0 (-1) ltac:(lia) ltac:(lia)) as Hsep.
  fold (rfind "/" p) in Hsep.
  case_decide as Hdot; [|apply app_nil_r].
  destruct (existsb _ _); [|apply app_nil_r]. simpl.
  unfold py_slice. cbn [from_option]. unfold slice_index.
  rewrite decide_False by lia. rewrite drop_0, firstn_all. apply take_drop.
Qed.

Section CommandLineProofs.

Variable isfile : pystr → bool.
Variable access_x : pystr → bool.
Variable isdir : pystr → bool.
Variable strip_ilastik_options : list pystr → outcome (list pystr).

Lemma process_command_line_returns args ilastik_args args' rest :
  process_command_line isfile access_x isdir strip_ilastik_options args ilastik_args
    = Returns (args', rest) →
  isfile (ns_ilastik args) = true ∧ access_x (ns_ilastik args) = true ∧
  ¬ (ns_train args = None ∧ ns_batch_predict args = None) ∧
  ¬ (ns_train args ≠ None ∧ ns_batch_predict args ≠ None) ∧
  (if truthy (ns_train args) then check_train isfile args ilastik_args
   else Returns args) = Returns args' ∧
  (if truthy (ns_batch_predict args')
   then check_batch_predict isdir strip_ilastik_options args' ilastik_args
   else Returns ilastik_args) = Returns rest.
Proof.
  unfold process_command_line.
  destruct (isfile (ns_ilastik args)), (access_x (ns_ilastik args)); simpl;
    try done.
  case_bool_decide as Hnone; [done|]. case_bool_decide as Hboth; [done|].
  destruct (if truthy (ns_train args) then _ else _) as [args1|e]; simpl; [|done].
  destruct (if truthy (ns_batch_predict args1) then _ else _) as [rest1|e] eqn:Hb;
    simpl; [|done].
  intros [= <- <-]. done.
Qed.

Lemma check_train_returns args ilastik_args args' train :
  check_train isfile args ilastik_args = Returns args' →
  ns_train args = Some train →
  ilastik_args = [] ∧ ns_files args = None ∧ isfile train = true ∧
  -1 ≤ ns_labeldataset args ∧
  args' =
    set_compression
      (set_outfile args
         (if bool_decide (length (ns_outfile args) = 0%nat)
          then (splitext train).1 ++ lit "_out" ++ (splitext train).2
          else ns_outfile args))
      (if bool_decide (ns_compression args = Some (lit "None")) then None
       else ns_compression args).
Proof.
  unfold check_train. intros Hcheck Htrain. rewrite Htrain in Hcheck.
  destruct (bool_decide (0 < length ilastik_args)%nat) eqn:Hargs; [done|].
  destruct (bool_decide (ns_files args ≠ None)) eqn:Hfiles; [done|].
  destruct (isfile train); [|done]. cbn [negb] in Hcheck.
  apply bool_decide_eq_false in Hargs, Hfiles.
  assert (ilastik_args = []) as -> by (destruct ilastik_args; [done|simpl in *; lia]).
  assert (ns_files args = None) as Hnofiles.
  { destruct (ns_files args); [|done]. by destruct Hfiles. }
  destruct (splitext train) as [file_path file_ext]. cbn [fst snd].
  destruct args as [il tr out nl ld ca se pf co bp fi].
  unfold set_outfile, set_compression in *.
  cbn [ns_ilastik ns_train ns_outfile ns_nloops ns_labeldataset ns_cache ns_seed
       ns_predict_file ns_compression ns_batch_predict ns_files] in *.
  destruct (bool_decide (length out = 0%nat));
    cbn [ns_ilastik ns_train ns_outfile ns_nloops ns_labeldataset ns_cache ns_seed
         ns_predict_file ns_compression ns_batch_predict ns_files] in *;
    destruct (bool_decide (ld < -1)) eqn:Hld; try done;
    apply bool_decide_eq_false in Hld;
    destruct (bool_decide (co = Some (lit "None")));
    injection Hcheck as <-; repeat split; try done; lia.
Qed.


(** X9 (accepted batch prediction arguments): when [process_command_line]
    returns and --batch_predict is a non-empty string, ilastik is an
    executable file, --train is not given, --files is given and the folder
    is a directory; the arguments are returned as they were, and the
    unknown arguments as the second parser leaves them. *)
Theorem process_command_line_batch_predict args ilastik_args args' rest folder :
  process_command_line isfile access_x isdir strip_ilastik_options args ilastik_args
    = Returns (args', rest) →
  ns_batch_predict args = Some folder → folder ≠ [] →
  isfile (ns_ilastik args) = true ∧ access_x (ns_ilastik args) = true ∧
  ns_train args = None ∧ ns_files args ≠ None ∧ isdir folder = true ∧
  strip_ilastik_options ilastik_args = Returns rest ∧ args' = args.
Proof.
  intros Hrun Hbatch Hne.
  apply process_command_line_returns in Hrun
    as (Hfile & Haccess & _ & Hboth & Hcheck & Hcheckb).
  assert (ns_train args = None) as Hnotrain.
  { destruct (ns_train args); [|done]. destruct Hboth. rewrite Hbatch. done. }
  rewrite Hnotrain in Hcheck. simpl in Hcheck. injection Hcheck as <-.
  assert (truthy (ns_batch_predict args) = true) as Htruthy.
  { rewrite Hbatch. by destruct folder. }
  rewrite Htruthy in Hcheckb. unfold check_batch_predict in Hcheckb.
  rewrite Hbatch in Hcheckb.
  case_bool_decide as Hfiles; [done|].
  destruct (isdir folder); [|done]. done.
Qed.

(** X10 (label dataset below -1): with --train a non-empty string naming a
    file, an executable ilastik, no --batch_predict, no --files and no
    unknown arguments, a label dataset below -1 makes
    [process_command_line] raise AttributeError, from reading [args.d] for
    the message, and not the [Exception] written there. *)
Theorem process_command_line_label_dataset args train :
  isfile (ns_ilastik args) = true → access_x (ns_ilastik args) = true →
  ns_train args = Some train → train ≠ [] → isfile train = true →
  ns_batch_predict args = None → ns_files args = None →
  ns_labeldataset args < -1 →
  process_command_line isfile access_x isdir strip_ilastik_options args []
    = Raises ExcAttributeError.
Proof.
  intros Hfile Haccess Htrain Hne Htrainfile Hbatch Hfiles Hld.
  unfold process_command_line. rewrite Hfile, Haccess. simpl.
  rewrite bool_decide_eq_false_2 by (rewrite Htrain; by intros [? _]).
  rewrite bool_decide_eq_false_2 by (rewrite Hbatch; by intros [_ ?]).
  assert (truthy (ns_train args) = true) as -> by (rewrite Htrain; by destruct train).
  unfold check_train. rewrite Htrain, Hfiles, Htrainfile. simpl.
  destruct (splitext train) as [file_path file_ext].
  destruct args as [il tr out nl ld ca se pf co bp fi]. simpl in *.
  destruct (bool_decide (length out = 0%nat)); simpl;
    by rewrite bool_decide_eq_true_2.
Qed.

(** X11 (an empty mode): with --train given as the empty string and no
    --batch_predict, or the other way round, and an executable ilastik,
    [process_command_line] returns the arguments as they are: none of the
    checks of the training or batch prediction arguments is made. *)
Theorem process_command_line_empty_mode args ilastik_args :
  isfile (ns_ilastik args) = true → access_x (ns_ilastik args) = true →
  (ns_train args = Some [] ∧ ns_batch_predict args = None) ∨
  (ns_train args = None ∧ ns_batch_predict args = Some []) →
  process_command_line isfile access_x isdir strip_ilastik_options args ilastik_args
    = Returns (args, ilastik_args).
Proof.
  intros Hfile Haccess Hmode. unfold process_command_line.
  rewrite Hfile, Haccess. simpl.
  rewrite bool_decide_eq_false_2 by (destruct Hmode as [[-> ->]|[-> ->]]; by intros []).
  rewrite bool_decide_eq_false_2
    by (destruct Hmode as [[-> ->]|[-> ->]]; intros []; done).
  destruct Hmode as [[Ht Hb]|[Ht Hb]]; rewrite Ht; cbn [truthy outcome_bind];
    by rewrite Hb.
Qed.

End CommandLineProofs.


Lemma process_command_line_batch_predict_witness :
  process_command_line everything everything everything keep_arguments
    batch_args [lit "--output_format=png"]
    = Returns (batch_args, [lit "--output_format=png"]) ∧
  ns_batch_predict batch_args = Some (lit "cache") ∧ lit "cache" ≠ [] ∧
  ns_train batch_args = None ∧ ns_files batch_args ≠ None ∧
  keep_arguments [lit "--output_format=png"] = Returns [lit "--output_format=png"].
Proof.
  destruct (process_command_line_batch_predict everything everything everything
              keep_arguments batch_args [lit "--output_format=png"] batch_args
              [lit "--output_format=png"] (lit "cache"))
    as (_ & _ & Htrain & Hfiles & _ & Hstrip & _);
    [reflexivity|reflexivity|discriminate|].
  split; [reflexivity|]. split; [reflexivity|]. split; [discriminate|].
  split; [exact Htrain|]. split; [exact Hfiles|exact Hstrip].
Defined.

Lemma process_command_line_label_dataset_witness :
  ns_train (train_args (-2)) = Some (lit "data/proj.ilp") ∧
  lit "data/proj.ilp" ≠ [] ∧
  ns_batch_predict (train_args (-2)) = None ∧ ns_files (train_args (-2)) = None ∧
  ns_labeldataset (train_args (-2)) < -1 ∧
  process_command_line everything everything everything keep_arguments
    (train_args (-2)) [] = Raises ExcAttributeError.
Proof.
  split; [reflexivity|]. split; [discriminate|]. split; [reflexivity|].
  split; [reflexivity|]. split; [simpl; lia|].
  apply (process_command_line_label_dataset everything everything everything
           keep_arguments (train_args (-2)) (lit "data/proj.ilp"));
    [reflexivity|reflexivity|reflexivity|discriminate|reflexivity|reflexivity
    |reflexivity|simpl; lia].
Defined.

Lemma process_command_line_empty_mode_witness :
  (ns_train empty_train_args = Some [] ∧ ns_batch_predict empty_train_args = None) ∧
  process_command_line everything everything everything keep_arguments
    empty_train_args [lit "--unknown"]
  = Returns (empty_train_args, [lit "--unknown"]).
Proof.
  split; [split; reflexivity|].
  apply (process_command_line_empty_mode everything everything everything
           keep_arguments); [reflexivity|reflexivity|].
  left. split; reflexivity.
Defined.

(** ** The keys of a project file *)

Lemma zfill_digits_inj width width' a a' :
  0 ≤ a → 0 ≤ a' →
  zfill width (py_str_int a) = zfill width' (py_str_int a') → a = a'.
Proof.
  intros Ha Ha' Heq.
  destruct (py_int_zfill int_raises width a Ha) as [_ Hint].
  destruct (py_int_zfill int_raises width' a' Ha') as [_ Hint'].
  rewrite Heq, Hint' in Hint. by injection Hint.
Qed.

Lemma digits_no_slash (l : pystr) d :
  DecimalString.NilEmpty.uint_of_string (String.string_of_list_ascii l) = Some d →
  "/"%char ∉ l.
Proof.
  revert d. induction l as [|c l IH]; intros d Hd; [apply not_elem_of_nil|].
  simpl in Hd.
  destruct (DecimalString.NilEmpty.uint_of_string (String.string_of_list_ascii l))
    as [d'|] eqn:Hl; [|done].
  apply not_elem_of_cons. split; [|by eapply IH].
  intros <-. done.
Qed.

Lemma zfill_digits_no_slash width a :
  0 ≤ a → "/"%char ∉ zfill width (py_str_int a).
Proof.
  intros Ha. destruct (py_int_zfill int_raises width a Ha) as [Hne Hint].
  unfold py_int in Hint. destruct (zfill width (py_str_int a)) as [|c l] eqn:Hz; [done|].
  destruct (DecimalString.NilEmpty.uint_of_string _) as [d|] eqn:Hd; [|done].
  by eapply digits_no_slash.
Qed.

Lemma app_pivot_inj {A} (x : A) l1 l2 r1 r2 :
  x ∉ l1 → x ∉ l2 → l1 ++ x :: r1 = l2 ++ x :: r2 → l1 = l2 ∧ r1 = r2.
Proof.
  revert l2. induction l1 as [|a l1 IH]; intros [|b l2] H1 H2 Heq; simpl in *.
  - by injection Heq.
  - injection Heq as <- _. destruct H2. by left.
  - injection Heq as -> _. destruct H1. by left.
  - injection Heq as -> Heq. apply not_elem_of_cons in H1 as [_ H1], H2 as [_ H2].
    destruct (IH l2 H1 H2 Heq) as [-> ->]. done.
Qed.

(** X12 (keys of lanes and blocks): for lane and block numbers that are not
    negative, the keys that [ILP.filepath], [ILP.axisorder], [ILP.axistags]
    and [ILP.labelpath] build are different for different numbers. *)
Theorem ilp_keys_injective lane lane' block block' :
  0 ≤ lane → 0 ≤ lane' → 0 ≤ block → 0 ≤ block' →
  (ilp_filepath lane = ilp_filepath lane' → lane = lane') ∧
  (ilp_axisorder lane = ilp_axisorder lane' → lane = lane') ∧
  (ilp_axistags lane = ilp_axistags lane' → lane = lane') ∧
  (ilp_labelpath lane block = ilp_labelpath lane' block' →
   lane = lane' ∧ block = block').
Proof.
  intros Hl Hl' Hb Hb'.
  unfold ilp_filepath, ilp_axisorder, ilp_axistags, ilp_labelpath.
  split; [|split; [|split]].
  - intros Heq%app_inv_head%app_inv_tail. by eapply zfill_digits_inj.
  - intros Heq%app_inv_head%app_inv_tail. by eapply zfill_digits_inj.
  - intros Heq%app_inv_head%app_inv_tail. by eapply zfill_digits_inj.
  - intros Heq%app_inv_head.
    change (lit "/block") with ("/"%char :: lit "block") in Heq.
    rewrite <- !app_comm_cons in Heq.
    apply app_pivot_inj in Heq as [Hlane Hblock%app_inv_head];
      [|by apply zfill_digits_no_slash..].
    split; by eapply zfill_digits_inj.
Qed.

Lemma ilp_keys_injective_witness :
  0 ≤ 3 ∧ 0 ≤ 12 ∧ 0 ≤ 0 ∧ 0 ≤ 10000 ∧
  ilp_labelpath 3 0 = lit "PixelClassification/LabelSets/labels003/block0000" ∧
  ilp_labelpath 12 10000 = lit "PixelClassification/LabelSets/labels012/block10000" ∧
  (ilp_labelpath 3 0 = ilp_labelpath 12 10000 → 3 = 12 ∧ 0 = 10000).
Proof.
  split; [lia|]. split; [lia|]. split; [lia|]. split; [lia|].
  split; [reflexivity|]. split; [reflexivity|].
  apply (ilp_keys_injective 3 12 0 10000); lia.
Defined.
